(** * The Krita host of G'MIC-Qt: [gmic-qt/src/Host/Krita/host_krita.cpp]

    A shallow embedding of the plugin side of the Krita bridge: the framed
    request/response exchange over the local socket
    ([sendMessageSynchronously]), the three host entry points
    ([getLayersExtent], [getCroppedImages], [outputImages]), the
    process-wide registry of output segments ([sharedMemorySegments]) and
    [main], which runs the engine and empties the registry.

    Text is modelled as [string], one [ascii] per character: the wire format
    is ASCII.  A C++ [int] is a [Z] with its range written out.  A [float]
    sample of an image is the [Z] holding its 32 bits, since samples are only
    ever moved with [memcpy].  The [double] coordinates of a crop rectangle
    are binary64 floats. *)

From Stdlib Require Import ZArith Ascii String List Bool Lia DecimalString DecimalPos.
From Stdlib Require PrimFloat.
From stdpp Require Import base list strings.

Local Open Scope Z_scope.

(** ** The Qt value classes the file relies on *)

Module Qt.

Abbreviation QString := string (only parsing).
Abbreviation QByteArray := string (only parsing).

Definition of_chars (l : list ascii) : string := String.string_of_list_ascii l.
Definition chars (s : string) : list ascii := String.list_ascii_of_string s.

(** [QString::split(sep, Qt::KeepEmptyParts)]: the pieces between the
    separators, the empty ones included. *)
Fixpoint split_keep (sep : ascii) (s : string) : list string :=
  match s with
  | EmptyString => [EmptyString]
  | String c s' =>
      if Ascii.eqb c sep then EmptyString :: split_keep sep s'
      else match split_keep sep s' with
           | [] => [String c EmptyString]
           | p :: ps => String c p :: ps
           end
  end.

Definition isEmpty (s : string) : bool :=
  match s with EmptyString => true | _ => false end.

(** [QString::split(sep, QT_SKIP_EMPTY_PARTS)]. *)
Definition split (sep : ascii) (s : string) : list string :=
  List.filter (fun p => negb (isEmpty p)) (split_keep sep s).

(** [QChar::isSpace] on ASCII: space and the controls 9 to 13. *)
Definition isSpace (c : ascii) : bool :=
  let n := Z.of_nat (nat_of_ascii c) in
  (n =? 32) || ((9 <=? n) && (n <=? 13)).

Definition digitValue (c : ascii) : option Z :=
  let n := Z.of_nat (nat_of_ascii c) in
  if (48 <=? n) && (n <=? 57) then Some (n - 48) else None.

Fixpoint drop_spaces (l : list ascii) : list ascii :=
  match l with
  | c :: l' => if isSpace c then drop_spaces l' else l
  | [] => []
  end.

Definition trimmed (l : list ascii) : list ascii :=
  rev (drop_spaces (rev (drop_spaces l))).

(** The value of a run of decimal digits, most significant first; [None] when
    a character is not a digit. *)
Fixpoint digits_value (acc : Z) (l : list ascii) : option Z :=
  match l with
  | [] => Some acc
  | c :: l' =>
      match digitValue c with
      | Some d => digits_value (10 * acc + d) l'
      | None => None
      end
  end.

Definition INT_MIN : Z := - 2 ^ 31.
Definition INT_MAX : Z := 2 ^ 31 - 1.

Definition in_int (z : Z) : bool := (INT_MIN <=? z) && (z <=? INT_MAX).

(** The text of a base-10 integer: an optional sign and at least one digit. *)
Definition parse_decimal (l : list ascii) : option Z :=
  match l with
  | [] => None
  | c :: l' =>
      if Ascii.eqb c "-" then
        match l' with [] => None | _ => Z.opp <$> digits_value 0 l' end
      else if Ascii.eqb c "+" then
        match l' with [] => None | _ => digits_value 0 l' end
      else digits_value 0 l
  end.

(** [QString::toInt()] with its defaults (base 10, no [ok] pointer): white
    space around the number is ignored, and 0 is returned when the text is
    not a number or the number does not fit an [int]. *)
Definition toInt (s : string) : Z :=
  match parse_decimal (trimmed (chars s)) with
  | Some z => if in_int z then z else 0
  | None => 0
  end.

(** [QtMiscUtils::fromHex]: the value of a hexadecimal digit. *)
Definition hexValue (c : ascii) : option Z :=
  let n := Z.of_nat (nat_of_ascii c) in
  if (48 <=? n) && (n <=? 57) then Some (n - 48)
  else if (65 <=? n) && (n <=? 70) then Some (n - 65 + 10)
  else if (97 <=? n) && (n <=? 102) then Some (n - 97 + 10)
  else None.

(** [QByteArray::fromHex] walks its input from the last character to the
    first, skips what is not a hexadecimal digit, and pairs the digits from
    the right: a digit left alone at the front is a byte of its own. *)
Fixpoint pair_nibbles (rev_digits : list Z) : list Z :=
  match rev_digits with
  | lo :: hi :: r => Z.lor lo (Z.shiftl hi 4) :: pair_nibbles r
  | [lo] => [lo]
  | [] => []
  end.

Definition byte_char (b : Z) : ascii := ascii_of_nat (Z.to_nat b).

Definition fromHex (s : string) : string :=
  of_chars (byte_char <$> rev (pair_nibbles (rev (omap hexValue (chars s))))).

Definition hex_digit (n : Z) : ascii :=
  if n <? 10 then ascii_of_nat (Z.to_nat (48 + n))
  else ascii_of_nat (Z.to_nat (97 + n - 10)).

(** [QByteArray::toHex]: two lower-case digits per byte. *)
Definition toHex (s : string) : string :=
  of_chars (flat_map (fun c => let n := Z.of_nat (nat_of_ascii c) in
                               [hex_digit (Z.shiftr n 4); hex_digit (Z.land n 15)])
                     (chars s)).

(** The bytes [const char *] reads from [QByteArray::constData()]: up to the
    first NUL. *)
Fixpoint c_str (s : string) : string :=
  match s with
  | EmptyString => EmptyString
  | String c s' => if Ascii.eqb c Ascii.zero then EmptyString else String c (c_str s')
  end.

(** [QString::fromUtf8], [QString::toUtf8] and [QString::toLatin1] leave
    ASCII text as it is. *)
Definition fromUtf8 (ba : QByteArray) : QString := ba.
Definition toUtf8 (s : QString) : QByteArray := s.
Definition toLatin1 (s : QString) : QByteArray := s.

(** [QString::number] of an integer, base 10. *)
Definition number (z : Z) : string := NilZero.string_of_int (Z.to_int z).

(** *** [QString::arg]

    A place marker is [%] followed by one or two digits, with an optional [L]
    in between.  [arg] replaces every marker carrying the lowest number, and
    leaves the text as it is when it holds no marker. *)
Inductive token : Type :=
| Char (c : ascii)
| Marker (n : Z) (text : list ascii).

Definition one_or_two_digits (d : Z) (l : list ascii) : Z * list ascii * list ascii :=
  match l with
  | c :: l' =>
      match digitValue c with
      | Some d' => (10 * d + d', [c], l')
      | None => (d, [], l)
      end
  | [] => (d, [], l)
  end.

(** [findArgEscapes]: [fuel] bounds the characters left to read. *)
Fixpoint tokens (fuel : nat) (l : list ascii) : list token :=
  match fuel with
  | O => []
  | S fuel =>
      match l with
      | [] => []
      | c :: l1 =>
          if negb (Ascii.eqb c "%") then Char c :: tokens fuel l1
          else
            let '(loc, l2) :=
              match l1 with
              | c1 :: l1' => if Ascii.eqb c1 "L" then ([c1], l1') else ([], l1)
              | [] => ([], l1)
              end in
            match l2 with
            | [] => Char <$> (c :: loc)
            | c2 :: l3 =>
                match digitValue c2 with
                | None => (Char <$> (c :: loc)) ++ tokens fuel l2
                | Some d =>
                    let '(n, more, l4) := one_or_two_digits d l3 in
                    Marker n (c :: loc ++ c2 :: more) :: tokens fuel l4
                end
            end
      end
  end.

Definition lowest_marker (ts : list token) : option Z :=
  fold_right (fun t m =>
                match t, m with
                | Marker n _, Some k => Some (Z.min n k)
                | Marker n _, None => Some n
                | Char _, _ => m
                end) None ts.

Definition fill (k : Z) (a : list ascii) (t : token) : list ascii :=
  match t with
  | Char c => [c]
  | Marker n text => if n =? k then a else text
  end.

Definition arg (s : string) (a : string) : string :=
  let ts := tokens (S (String.length s)) (chars s) in
  match lowest_marker ts with
  | Some k => of_chars (flat_map (fill k (chars a)) ts)
  | None => s
  end.

End Qt.

(** ** The exchange over the local socket: [sendMessageSynchronously] *)

Module Socket.
Import Qt.

(** What the other end of the [QLocalSocket] does during one exchange. *)
Record Peer : Type := {
  (** [socket.waitForConnected(1000)] *)
  waitForConnected : bool;
  (** the bytes that reach the read buffer during the [k]-th call of
      [waitForReadyRead], counted from 0; none when the wait times out *)
  arriving : nat -> string;
  (** [socket.isValid()] once [k] waits have been made *)
  isValid : nat -> bool;
  (** [readRawData] reports an error once [k] waits have been made *)
  readFails : nat -> bool;
  (** what [QByteArray::resize] leaves in the bytes it adds *)
  uninitialized : ascii
}.

(** What one call leaves behind. [waits] counts the calls of
    [waitForReadyRead]; [waited_ms] adds up the time limits of every wait the
    call made, an upper bound on the time it spent waiting. *)
Record Exchange : Type := {
  answer : QByteArray;
  warnings : list string;
  written : list QByteArray;
  waits : nat;
  waited_ms : Z
}.

Definition be32 (n : Z) : string :=
  of_chars (byte_char <$> [Z.land (Z.shiftr n 24) 255; Z.land (Z.shiftr n 16) 255;
                           Z.land (Z.shiftr n 8) 255; Z.land n 255]).

Definition byte_value (c : ascii) : Z := Z.of_nat (nat_of_ascii c).

(** [ds >> remaining]: a [quint32], most significant byte first. *)
Definition read_quint32 (l : list ascii) : Z :=
  fold_left (fun acc c => 256 * acc + byte_value c) (take 4 l) 0.

(** [QDataStream::writeBytes]: the length as a [quint32], then the bytes. *)
Definition writeBytes (ba : string) : string :=
  be32 (Z.of_nat (String.length ba)) +:+ ba.

Definition ack : string := "ack".

Inductive prefix_wait : Type :=
| Ready (buffer : list ascii) (k : nat)
| Stale (k : nat).

(** Lines 94 to 100: poll until the four bytes of the length are there.
    [None]: still polling when [fuel] iterations have been made. *)
Fixpoint await_length (fuel : nat) (p : Peer) (buffer : list ascii) (k : nat)
  : option prefix_wait :=
  match fuel with
  | O => None
  | S fuel =>
      if (Z.of_nat (length buffer) <? 4) then
        if negb (isValid p k) then Some (Stale k)
        else await_length fuel p (buffer ++ chars (arriving p k)) (S k)
      else Some (Ready buffer k)
  end.

Definition to_int (n : Z) : Z :=
  let m := n mod 2 ^ 32 in if m <? 2 ^ 31 then m else m - 2 ^ 32.

(** [ds.readRawData(answerBuf, remaining)]: the bytes taken from the buffer,
    or -1. *)
Definition readRawData (p : Peer) (k : nat) (buffer : list ascii) (remaining : Z)
  : Z * list ascii :=
  let len := to_int remaining in
  if readFails p k || (len <? 0) then (-1, [])
  else (Z.min len (Z.of_nat (length buffer)), take (Z.to_nat len) buffer).

(** Lines 108 to 112, the [do ... while] loop; the result is the last [got],
    the bytes stored so far and the number of waits made. *)
Fixpoint read_answer (fuel : nat) (p : Peer) (remaining : Z) (buffer : list ascii)
    (k : nat) (stored : list ascii) : option (Z * list ascii * nat) :=
  match fuel with
  | O => None
  | S fuel =>
      let '(got, bytes) := readRawData p k buffer remaining in
      let remaining := (remaining - got) mod 2 ^ 32 in
      let stored := stored ++ bytes in
      if negb (remaining =? 0) && (0 <=? got) then
        let new := chars (arriving p k) in
        if negb (isEmpty (arriving p k)) then
          read_answer fuel p remaining (drop (length bytes) buffer ++ new) (S k) stored
        else Some (got, stored, S k)
      else Some (got, stored, k)
  end.

(** [answer.resize(remaining)] followed by the bytes written into it. *)
Definition resized (p : Peer) (remaining : Z) (stored : list ascii) : string :=
  let size := Z.to_nat (Z.max 0 (to_int remaining)) in
  of_chars (take size (stored ++ replicate (size - length stored)%nat (uninitialized p))).

(** The time limits of the waits, in milliseconds: [waitForConnected(1000)],
    [waitForBytesWritten()] with its default of 30000,
    [waitForReadyRead(1000)], [waitForReadyRead(2000)] and
    [waitForBytesWritten(1000)]. *)
Definition connect_ms : Z := 1000.
Definition written_ms : Z := 30000.
Definition poll_ms : Z := 1000.
Definition read_ms : Z := 2000.
Definition ack_ms : Z := 1000.

Definition sendMessageSynchronously (fuel : nat) (p : Peer) (ba : QByteArray)
  : option Exchange :=
  if negb (waitForConnected p) then
    Some {| answer := ""; warnings := ["Could not connect to the Krita instance."];
            written := []; waits := 0; waited_ms := connect_ms |}
  else
    match await_length fuel p [] 0 with
    | None => None
    | Some (Stale k) =>
        Some {| answer := ""; warnings := ["Stale request"];
                written := [writeBytes ba]; waits := k;
                waited_ms := connect_ms + written_ms + poll_ms * Z.of_nat k |}
    | Some (Ready buffer k) =>
        let remaining := read_quint32 buffer in
        match read_answer fuel p remaining (drop 4 buffer) k [] with
        | None => None
        | Some (got, stored, k') =>
            let waited := connect_ms + written_ms + poll_ms * Z.of_nat k
                          + read_ms * Z.of_nat (k' - k) in
            if got <? 0 then
              Some {| answer := resized p remaining stored;
                      warnings := ["Could not receive the answer."];
                      written := [writeBytes ba]; waits := k'; waited_ms := waited |}
            else
              Some {| answer := resized p remaining stored; warnings := [];
                      written := [writeBytes ba; ack]; waits := k';
                      waited_ms := waited + ack_ms |}
        end
    end.

(** A peer that delivers [chunks] one wait after the other and then nothing,
    on a socket that stays valid until [hangup] waits have been made. *)
Definition scripted (chunks : list string) (hangup : option nat) : Peer :=
  {| waitForConnected := true;
     arriving := fun k => default "" (chunks !! k);
     isValid := fun k => match hangup with Some n => (k <? n)%nat | None => true end;
     readFails := fun _ => false;
     uninitialized := Ascii.zero |}.

End Socket.

(** ** The host entry points *)

Module Host.
Import Qt.

Definition newline : ascii := ascii_of_nat 10.
Definition nl : string := String newline EmptyString.

(** Modelled from the spec: [gmic_image<float>] is declared in CImg.h and
    gmic.h, which are not under src/.  The spec's image buffer is a tensor of
    width x height x channels samples; the fields are the ones the source
    reads ([_width], [_height], [_spectrum], [_data]) and the depth it passes
    to [assign]. *)
Record gmic_image : Type := {
  _width : Z;
  _height : Z;
  _depth : Z;
  _spectrum : Z;
  _data : list Z
}.

(** The image [gmic_image<float>()] and [gmic_list::assign(n)] build. *)
Definition empty_image : gmic_image :=
  {| _width := 0; _height := 0; _depth := 0; _spectrum := 0; _data := [] |}.

(** A [QSharedMemory] object of the plugin: its key, whether it is attached,
    and the samples of the segment it created. *)
Record QSharedMemory : Type := {
  key : QString;
  isAttached : bool;
  memory : list Z
}.

(** Everything outside the process that the entry points consult. *)
Record Krita : Type := {
  (** what [sendMessageSynchronously] returns for the [n]-th message of the
      process, when it returns ([Socket.sendMessageSynchronously] is how it
      is obtained) *)
  reply : nat -> QByteArray -> QByteArray;
  (** the samples of the segment published under a key, when
      [attach(QSharedMemory::ReadOnly)] succeeds *)
  attach : QString -> option (list Z);
  lock_ok : QString -> bool;
  unlock_ok : QString -> bool;
  detach_ok : QString -> bool;
  (** [QSharedMemory::create(size)] on a fresh object with the given key *)
  create_ok : QString -> Z -> bool;
  (** [QUuid::createUuid().toString()], the [n]-th time it is called *)
  createUuid : nat -> QString;
  (** the text [QString::arg(double)] substitutes *)
  number_double : PrimFloat.float -> QString
}.

(** The state of the plugin process that the entry points read and write. *)
Record Process : Type := {
  (** the static [QVector<QSharedMemory *>] of line 74 *)
  sharedMemorySegments : list QSharedMemory;
  (** the objects [qDeleteAll] has deleted, oldest first *)
  deleted : list QSharedMemory;
  (** the messages handed to [sendMessageSynchronously], oldest first *)
  sent : list QByteArray;
  (** the [qWarning] lines of the entry points, oldest first *)
  warnings : list string;
  (** how many keys [QUuid::createUuid] has produced *)
  uuids : nat
}.

Definition started : Process :=
  {| sharedMemorySegments := []; deleted := []; sent := []; warnings := []; uuids := 0 |}.

(** What stops a call short of its end. *)
Inductive fault : Type :=
| IndexOutOfRange   (* operator[] of QList or gmic_list past the end *)
| BadImageSize      (* an image with a negative dimension *)
| IntegerOverflow   (* int arithmetic past INT_MAX *)
| BufferOverrun.    (* memcpy past the end of its source or target *)

Inductive outcome (A : Type) : Type :=
| Returns (a : A) (p : Process)
| Faults (f : fault) (p : Process).
Arguments Returns {A} a p.
Arguments Faults {A} f p.

Definition M (A : Type) : Type := Process -> outcome A.

Definition ret {A} (a : A) : M A := fun p => Returns a p.

Definition bind {A B} (m : M A) (k : A -> M B) : M B :=
  fun p => match m p with
           | Returns a p' => k a p'
           | Faults f p' => Faults f p'
           end.

Definition throw {A} (f : fault) : M A := fun p => Faults f p.

Notation "x <- m ;; k" := (bind m (fun x => k))
  (at level 100, m at next level, right associativity).
Notation "m ;; k" := (bind m (fun _ => k))
  (at level 100, right associativity).

Definition qWarning (text : string) : M unit :=
  fun p => Returns tt
    {| sharedMemorySegments := sharedMemorySegments p; deleted := deleted p;
       sent := sent p; warnings := warnings p ++ [text]; uuids := uuids p |}.

Definition when (b : bool) (m : M unit) : M unit := if b then m else ret tt.

(** A call of [sendMessageSynchronously] as its callers see it, for an
    exchange that returns: the message is handed over and the answer comes
    back.  [sent] records the message as handed over, whether or not the
    exchange wrote it to the socket.  Whether the exchange returns at all
    (lines 94 to 100 may wait for ever) and what it logs (lines 85, 96 and
    115) is the matter of [Socket.sendMessageSynchronously]: [warnings]
    holds the lines the entry points log themselves, and a statement on an
    entry point speaks of a call whose exchanges return. *)
Definition sendMessageSynchronously (E : Krita) (ba : QByteArray) : M QByteArray :=
  fun p => Returns (reply E (length (sent p)) ba)
    {| sharedMemorySegments := sharedMemorySegments p; deleted := deleted p;
       sent := sent p ++ [ba]; warnings := warnings p; uuids := uuids p |}.

(** [l[i]] of a [QList] or a [gmic_list]: the element, below the size.  Past
    the size [QList::operator[]] fails its assertion, and the read is one
    past the end of the array for both classes; the call is taken to stop
    there.  For [gmic_list], whose [operator[]] is declared in CImg.h and not
    under src/, nothing more than the read itself is known. *)
Definition at_ {A} (l : list A) (i : nat) : M A :=
  match l !! i with
  | Some a => ret a
  | None => throw IndexOutOfRange
  end.

(** [l[i] = a]. *)
Definition set_at {A} (l : list A) (i : nat) (a : A) : M (list A) :=
  if (i <? length l)%nat then ret (<[i:=a]> l) else throw IndexOutOfRange.

(** *** [getLayersExtent], lines 130 to 146 *)

(** Line 134, before [toUtf8]. *)
Definition image_size_message (mode : Z) : QString :=
  arg ("command=gmic_qt_get_image_size" +:+ nl +:+ "mode=%1") (number mode).

Definition getLayersExtent (E : Krita) (mode : Z) : M (Z * Z) :=
  let command := toUtf8 (image_size_message mode) in
  answer <- sendMessageSynchronously E command ;;
  let answer := fromUtf8 answer in
  if (0 <? String.length answer)%nat then
    let wh := split "," answer in
    if (length wh =? 2)%nat then
      w <- at_ wh 0 ;;
      h <- at_ wh 1 ;;
      ret (toInt w, toInt h)
    else ret (0, 0)
  else ret (0, 0).

(** *** [getCroppedImages], lines 148 to 233 *)

Definition entireImage (x y width height : PrimFloat.float) : bool :=
  PrimFloat.ltb x PrimFloat.zero && PrimFloat.ltb y PrimFloat.zero &&
  PrimFloat.ltb width PrimFloat.zero && PrimFloat.ltb height PrimFloat.zero.

Record rectangle : Type := {
  rect_x : PrimFloat.float;
  rect_y : PrimFloat.float;
  rect_width : PrimFloat.float;
  rect_height : PrimFloat.float
}.

(** Lines 153 to 159: the rectangle that goes into the message. *)
Definition croprect (x y width height : PrimFloat.float) : rectangle :=
  if entireImage x y width height then
    {| rect_x := PrimFloat.zero; rect_y := PrimFloat.zero;
       rect_width := PrimFloat.one; rect_height := PrimFloat.one |}
  else
    {| rect_x := x; rect_y := y; rect_width := width; rect_height := height |}.

(** Line 162. *)
Definition croprect_message (E : Krita) (r : rectangle) (mode : Z) : QString :=
  arg (arg (arg (arg (arg
    ("command=gmic_qt_get_cropped_images" +:+ nl +:+ "mode=%5" +:+ nl +:+ "croprect=%1,%2,%3,%4")
    (number_double E (rect_x r))) (number_double E (rect_y r)))
    (number_double E (rect_width r))) (number_double E (rect_height r)))
    (number mode).

(** Modelled from the spec: [gmic_image<float>::assign(w, h, d, s)] is
    declared in CImg.h, which is not under src/.  The spec's image buffer is
    a tensor of width x height x channels samples; an image without samples
    is the empty image, and the dimensions are unsigned, so that a negative
    [int] names no image. *)
Definition assign (size_x size_y size_z size_c : Z) : option gmic_image :=
  if size_x * size_y * size_z * size_c =? 0 then Some empty_image
  else if (size_x <? 0) || (size_y <? 0) || (size_z <? 0) || (size_c <? 0) then None
  else Some {| _width := size_x; _height := size_y; _depth := size_z; _spectrum := size_c;
               _data := replicate (Z.to_nat (size_x * size_y * size_z * size_c)) 0 |}.

(** Lines 214 to 216: [gimg.assign(w, h, 1, 4)] and the [memcpy] of
    [w * h * 4 * sizeof(float)] bytes out of the segment.  The product is
    computed on [int]; the copy reads [w * h * 4] samples of the segment and
    writes as many into the buffer of the image. *)
Definition image_of_segment (w h : Z) (segment : list Z) : M gmic_image :=
  match assign w h 1 4 with
  | None => throw BadImageSize
  | Some gimg =>
      let n := w * h * 4 in
      if negb (in_int (w * h)) || negb (in_int n) then throw IntegerOverflow
      else if (Z.of_nat (length segment) <? n) || (Z.of_nat (length (_data gimg)) <? n)
      then throw BufferOverrun
      else ret {| _width := _width gimg; _height := _height gimg; _depth := _depth gimg;
                  _spectrum := _spectrum gimg;
                  _data := take (Z.to_nat n) segment ++ drop (Z.to_nat n) (_data gimg) |}
  end.

(** What the first loop has gathered so far. *)
Record parsed : Type := {
  imageNames_of : list string;
  memoryKeys : list string;
  sizes : list (Z * Z)
}.

(** Lines 184 to 195, from index [i] on; [layers] are the lines left.  A name
    is kept as the C string [gmic_image<char>::string] reads. *)
Fixpoint parse_layers (layers : list string) (i : nat) (acc : parsed) : M parsed :=
  match layers with
  | [] => ret acc
  | layer :: layers =>
      let parts := split "," layer in
      when (negb (length parts =? 4)%nat) (qWarning "	gmic-qt: Got the wrong answer!") ;;
      p0 <- at_ parts 0 ;;
      p1 <- at_ parts 1 ;;
      let ba := fromHex (toLatin1 p1) in
      names <- set_at (imageNames_of acc) i (c_str ba) ;;
      p2 <- at_ parts 2 ;;
      p3 <- at_ parts 3 ;;
      parse_layers layers (S i)
        {| imageNames_of := names; memoryKeys := memoryKeys acc ++ [p0];
           sizes := sizes acc ++ [(toInt p2, toInt p3)] |}
  end.

(** Lines 200 to 228, from index [i] on; [keys] are the keys left. *)
Fixpoint fill_images (E : Krita) (keys : list string) (i : nat) (sizes : list (Z * Z))
    (images : list gmic_image) : M (list gmic_image) :=
  match keys with
  | [] => ret images
  | key :: keys =>
      match attach E key with
      | None =>
          qWarning "	gmic-qt: Could not attach to shared memory area." ;;
          qWarning "gmic-qt: Could not attach to shared memory area." ;;
          fill_images E keys (S i) sizes images
      | Some segment =>
          when (negb (lock_ok E key)) (qWarning "	gmic-qt: Could not lock memory segment") ;;
          size <- at_ sizes i ;;
          gimg <- image_of_segment (fst size) (snd size) segment ;;
          images <- set_at images i gimg ;;
          when (negb (unlock_ok E key)) (qWarning "	gmic-qt: Could not unlock memory segment") ;;
          when (negb (detach_ok E key)) (qWarning "	gmic-qt: Could not detach from memory segment") ;;
          fill_images E keys (S i) sizes images
      end
  end.

(** The lists [images] and [imageNames] are passed by reference: the call
    returns what they hold when it ends. *)
Definition getCroppedImages (E : Krita) (images : list gmic_image) (imageNames : list string)
    (x y width height : PrimFloat.float) (mode : Z) : M (list gmic_image * list string) :=
  let message := croprect_message E (croprect x y width height) mode in
  let command := toUtf8 message in
  answer <- sendMessageSynchronously E command ;;
  let answer := fromUtf8 answer in
  if isEmpty answer then
    qWarning "	gmic-qt: empty answer!" ;;
    ret (images, imageNames)
  else
    let imagesList := split newline answer in
    let images := replicate (length imagesList) empty_image in
    let imageNames := replicate (length imagesList) EmptyString in
    got <- parse_layers imagesList 0
             {| imageNames_of := imageNames; memoryKeys := []; sizes := [] |} ;;
    images <- fill_images E (memoryKeys got) 0 (sizes got) images ;;
    sendMessageSynchronously E "command=gmic_qt_detach" ;;
    ret (images, imageNames_of got).

(** *** [outputImages], lines 235 to 277 *)

Definition set_registry (l : list QSharedMemory) (dead : list QSharedMemory) : M unit :=
  fun p => Returns tt
    {| sharedMemorySegments := l; deleted := deleted p ++ dead;
       sent := sent p; warnings := warnings p; uuids := uuids p |}.

(** [sharedMemory->detach()] on one object. *)
Definition detach (E : Krita) (m : QSharedMemory) : QSharedMemory :=
  if isAttached m then
    {| key := key m; isAttached := negb (detach_ok E (key m)); memory := memory m |}
  else m.

(** Lines 240 to 246: detach what is attached, delete every object, clear the
    vector. *)
Definition release (E : Krita) : M unit :=
  fun p => set_registry [] (detach E <$> sharedMemorySegments p) p.

Definition fresh_uuid (E : Krita) : M string :=
  fun p => Returns (createUuid E (uuids p))
    {| sharedMemorySegments := sharedMemorySegments p; deleted := deleted p;
       sent := sent p; warnings := warnings p; uuids := S (uuids p) |}.

(** [sharedMemorySegments.append(m)]. *)
Definition append_segment (m : QSharedMemory) : M unit :=
  fun p => set_registry (sharedMemorySegments p ++ [m]) [] p.

(** The object appended last is the one [m] points to: a successful
    [create] attaches it, and the [memcpy] fills its segment. *)
Definition created (samples : list Z) : M unit :=
  fun p => match sharedMemorySegments p with
           | [] => Returns tt p
           | m :: ms =>
               let last_m := List.last (m :: ms) m in
               set_registry (removelast (m :: ms) ++
                   [{| key := key last_m; isAttached := true; memory := samples |}]) [] p
           end.

Definition uint (z : Z) : Z := z mod 2 ^ 32.

(** [gimg._width * gimg._height * gimg._spectrum * sizeof(float)]: the
    product of the [unsigned int]s wraps at 32 bits, the [size_t] at 64. *)
Definition byte_count (gimg : gmic_image) : Z :=
  (uint (uint (_width gimg * _height gimg) * _spectrum gimg) * 4) mod 2 ^ 64.

(** [QSharedMemory::create] takes an [int]. *)
Definition create_argument (gimg : gmic_image) : Z := Socket.to_int (byte_count gimg).

(** Line 274. *)
Definition layer_line (m_key layerName : string) (gimg : gmic_image) : string :=
  "layer=" +:+ m_key +:+ "," +:+ toHex (toUtf8 layerName) +:+ "," +:+
  arg (arg (arg "%1,%2,%3" (number (_spectrum gimg))) (number (_width gimg)))
      (number (_height gimg)) +:+ nl.

(** Lines 254 to 275, from index [i] on; [rest] are the images left.  The
    result is the message when the loop ran to its end, and [None] when
    line 265 returned. *)
Fixpoint output_layers (E : Krita) (rest : list gmic_image) (i : nat)
    (imageNames : list string) (message : string) : M (option string) :=
  match rest with
  | [] => ret (Some message)
  | gimg :: rest =>
      uuid <- fresh_uuid E ;;
      let m_key := arg "key_%1" uuid in
      append_segment {| key := m_key; isAttached := false; memory := [] |} ;;
      if negb (create_ok E m_key (create_argument gimg)) then
        qWarning "Could not create shared memory" ;;
        ret None
      else
        let bytes := byte_count gimg in
        if (create_argument gimg <? bytes) || (4 * Z.of_nat (length (_data gimg)) <? bytes)
        then throw BufferOverrun
        else
          created (take (Z.to_nat (bytes / 4)) (_data gimg)) ;;
          layerName <- at_ imageNames i ;;
          output_layers E rest (S i) imageNames (message +:+ layer_line m_key layerName gimg)
  end.

(** Line 252. *)
Definition output_message (mode : Z) : QString :=
  arg ("command=gmic_qt_output_images" +:+ nl +:+ "mode=%1" +:+ nl) (number mode).

Definition outputImages (E : Krita) (images : list gmic_image) (imageNames : list string)
    (mode : Z) : M unit :=
  release E ;;
  let message := output_message mode in
  done <- output_layers E images 0 imageNames message ;;
  match done with
  | Some message => sendMessageSynchronously E (toUtf8 message) ;; ret tt
  | None => ret tt
  end.

(** *** What a response line stands for

    The entries a line of the crop response gives rise to, written from the
    line alone; the theorems below compare them with what the loops of
    [getCroppedImages] leave in the lists. *)

Definition layer_parts (layer : string) : list string := split "," layer.

Definition layer_key (layer : string) : string := default "" (layer_parts layer !! 0%nat).

Definition layer_name (layer : string) : string :=
  c_str (fromHex (default "" (layer_parts layer !! 1%nat))).

Definition layer_size (layer : string) : Z * Z :=
  (toInt (default "" (layer_parts layer !! 2%nat)),
   toInt (default "" (layer_parts layer !! 3%nat))).

(** The image of [w] by [h] samples in 4 channels read from a segment. *)
Definition segment_image (w h : Z) (segment : list Z) : gmic_image :=
  if w * h =? 0 then empty_image
  else {| _width := w; _height := h; _depth := 1; _spectrum := 4;
          _data := take (Z.to_nat (w * h * 4)) segment |}.

(** The copy of lines 214 to 216 stays inside the segment and inside [int]. *)
Definition copy_defined (w h : Z) (segment : list Z) : bool :=
  (w * h =? 0) ||
  ((0 <? w) && (0 <? h) && (w * h * 4 <=? INT_MAX) && (w * h * 4 <=? Z.of_nat (length segment))).

Definition layer_image (E : Krita) (layer : string) : gmic_image :=
  match attach E (layer_key layer) with
  | Some segment => segment_image (fst (layer_size layer)) (snd (layer_size layer)) segment
  | None => empty_image
  end.

Definition layer_defined (E : Krita) (layer : string) : bool :=
  match attach E (layer_key layer) with
  | Some segment => copy_defined (fst (layer_size layer)) (snd (layer_size layer)) segment
  | None => true
  end.

(** The state a call ends in, whether it returns or not. *)
Definition final {A} (o : outcome A) : Process :=
  match o with Returns _ p => p | Faults _ p => p end.

(** A computation only ever adds to the messages sent. *)
Definition grows {A} (m : M A) : Prop :=
  forall p, sent p `prefix_of` sent (final (m p)).

(** The key of the segment made from the [n]-th uuid (line 260). *)
Definition segment_key (E : Krita) (n : nat) : string := arg "key_%1" (createUuid E n).

(** [create] succeeds for the image that gets the [n]-th uuid. *)
Definition creates (E : Krita) (n : nat) (gimg : gmic_image) : bool :=
  create_ok E (segment_key E n) (create_argument gimg).

(** The [memcpy] of line 269 stays inside the segment and inside the image. *)
Definition copy_fits (gimg : gmic_image) : bool :=
  negb ((create_argument gimg <? byte_count gimg)
        || (4 * Z.of_nat (length (_data gimg)) <? byte_count gimg)).

(** The object line 260 makes from the [n]-th uuid, before [create]. *)
Definition fresh_segment (E : Krita) (n : nat) : QSharedMemory :=
  {| key := segment_key E n; isAttached := false; memory := [] |}.

(** The same object once [create] has succeeded and line 269 has copied the
    samples of [gimg] into its segment. *)
Definition filled_segment (E : Krita) (n : nat) (gimg : gmic_image) : QSharedMemory :=
  {| key := segment_key E n; isAttached := true;
     memory := take (Z.to_nat (byte_count gimg / 4)) (_data gimg) |}.

(** The process after lines 260 and 261. *)
Definition pending (E : Krita) (p : Process) : Process :=
  {| sharedMemorySegments := sharedMemorySegments p ++ [fresh_segment E (uuids p)];
     deleted := deleted p; sent := sent p; warnings := warnings p; uuids := S (uuids p) |}.

(** The process after one full turn of the loop of [outputImages]. *)
Definition stored (E : Krita) (p : Process) (gimg : gmic_image) : Process :=
  {| sharedMemorySegments := sharedMemorySegments p ++ [filled_segment E (uuids p) gimg];
     deleted := deleted p; sent := sent p; warnings := warnings p; uuids := S (uuids p) |}.

(** The answer [getLayersExtent] receives in state [p]. *)
Definition extent_answer (E : Krita) (mode : Z) (p : Process) : string :=
  reply E (length (sent p)) (image_size_message mode).

(** The answer [getCroppedImages] receives in state [p]. *)
Definition crop_answer (E : Krita) (x y width height : PrimFloat.float) (mode : Z)
    (p : Process) : string :=
  reply E (length (sent p)) (croprect_message E (croprect x y width height) mode).

(** The lines of a crop response (line 173). *)
Definition crop_lines (answer : string) : list string := split newline answer.

Definition after_send (p : Process) (ba : string) : Process :=
  {| sharedMemorySegments := sharedMemorySegments p; deleted := deleted p;
     sent := sent p ++ [ba]; warnings := warnings p; uuids := uuids p |}.

Definition log (p : Process) (texts : list string) : Process :=
  {| sharedMemorySegments := sharedMemorySegments p; deleted := deleted p;
     sent := sent p; warnings := warnings p ++ texts; uuids := uuids p |}.

Definition no_segment : string := "Could not create shared memory".

(** The process after lines 240 to 246. *)
Definition released (E : Krita) (p : Process) : Process :=
  {| sharedMemorySegments := [];
     deleted := deleted p ++ (detach E <$> sharedMemorySegments p);
     sent := sent p; warnings := warnings p; uuids := uuids p |}.

Definition wrong_answer : string := "	gmic-qt: Got the wrong answer!".

(** The warning of line 188 for one line. *)
Definition layer_warning (layer : string) : list string :=
  if (length (layer_parts layer) =? 4)%nat then [] else [wrong_answer].

End Host.

(** ** Concrete hosts and peers for the examples *)

Module Examples.
Import Qt Host.

(** A host that answers the first message with [first] and stays silent
    afterwards, publishes [segments] and creates every segment of at most
    [limit] bytes.  The doubles of the examples are 0, 1 and -1. *)
Definition krita (first : string) (segments : list (string * list Z)) (limit : Z) : Krita :=
  {| reply := fun n _ => match n with O => first | S _ => "" end;
     attach := fun k => snd <$> List.find (fun kv => String.eqb (fst kv) k) segments;
     lock_ok := fun _ => true;
     unlock_ok := fun _ => true;
     detach_ok := fun _ => true;
     create_ok := fun _ size => (0 <? size) && (size <=? limit);
     createUuid := fun n => "{" +:+ number (Z.of_nat n) +:+ "}";
     number_double := fun d =>
       if PrimFloat.eqb d PrimFloat.zero then "0"
       else if PrimFloat.eqb d PrimFloat.one then "1" else "-1" |}.

Definition ramp (n : nat) : list Z := Z.of_nat <$> seq 0 n.

Definition minus_one : PrimFloat.float := PrimFloat.opp PrimFloat.one.

(** The line of the spec's example, with its third field left open. *)
Definition five_fields (third : string) : string :=
  "key1,6c617965723031," +:+ third +:+ ",2,2".

(** Two lines of four fields each. *)
Definition two_lines : string :=
  "key1,6c617965723031,2,2" +:+ nl +:+ "key2,6c617965723032,1,1".

(** A line of three fields, followed by a line of four. *)
Definition short_first_line : string :=
  "key1,6c617965723031,2" +:+ nl +:+ "key2,6c617965723032,1,1".

Definition two_segments : list (string * list Z) :=
  [("key1"%string, ramp 16); ("key2"%string, ramp 4)].

(** A host whose segments hold 64 bytes at most. *)
Definition small_host : Krita := krita "" [] 64.

Definition pixel (w h : Z) : gmic_image :=
  {| _width := w; _height := h; _depth := 1; _spectrum := 4;
     _data := ramp (Z.to_nat (w * h * 4)) |}.

End Examples.

(** ** The text on the wire *)

Module Wire.
Import Qt Host.


Definition is_digit (c : ascii) : bool :=
  match digitValue c with Some _ => true | None => false end.

(** A line of the crop response as lines 186 to 194 read it: the key of the
    segment, the name in hexadecimal, the width and the height. *)
Definition crop_line (m_key layerName : string) (w h : Z) : string :=
  m_key +:+ "," +:+ toHex layerName +:+ "," +:+ number w +:+ "," +:+ number h.

(** One layer of a crop response. *)
Record layer : Type := {
  layer_segment : string;
  layer_title : string;
  layer_width : Z;
  layer_height : Z
}.

Definition line_of (l : layer) : string :=
  crop_line (layer_segment l) (layer_title l) (layer_width l) (layer_height l).

(** The tokens [arg] reads in a pattern. *)
Definition tokens_of (s : string) : list token := tokens (S (String.length s)) (chars s).

(** No character of [s] is [c]. *)
Definition free_of (c : ascii) (s : string) : bool :=
  forallb (fun x => negb (Ascii.eqb x c)) (chars s).







(** An image whose samples are all there and take less than 2^31 bytes. *)
Definition well_sized (gimg : gmic_image) : Prop :=
  0 <= _width gimg /\ 0 <= _height gimg /\ 0 <= _spectrum gimg
  /\ _width gimg * _height gimg * _spectrum gimg * 4 < 2 ^ 31
  /\ Z.of_nat (length (_data gimg)) = _width gimg * _height gimg * _spectrum gimg.

End Wire.

(** ** The process from [main] to its end *)

Module Plugin.
Import Qt Host.

(** Modelled from the spec: [GmicQt::run] is declared in GmicQt.h, which is
    not under src/.  The spec's filter-execution engine is invoked after
    setup and consumes the entry points of the host: an engine is the calls
    it makes, each one chosen from what the calls before it returned, and the
    exit code it ends with. *)
Inductive engine : Type :=
| Exit (r : Z)
| GetLayersExtent (mode : Z) (next : Z * Z -> engine)
| GetCroppedImages (images : list gmic_image) (imageNames : list string)
    (x y width height : PrimFloat.float) (mode : Z)
    (next : list gmic_image * list string -> engine)
| OutputImages (images : list gmic_image) (imageNames : list string) (mode : Z)
    (next : engine).

Fixpoint run (E : Krita) (e : engine) : M Z :=
  match e with
  | Exit r => ret r
  | GetLayersExtent mode next =>
      wh <- getLayersExtent E mode ;;
      run E (next wh)
  | GetCroppedImages images imageNames x y width height mode next =>
      got <- getCroppedImages E images imageNames x y width height mode ;;
      run E (next got)
  | OutputImages images imageNames mode next =>
      outputImages E images imageNames mode ;;
      run E next
  end.

(** Lines 331 to 339: what [main] takes from the positional arguments. *)
Record launch : Type := {
  socketKey : QString;
  headless : bool
}.

Definition positional (args : list QString) : launch :=
  {| socketKey := default "gmic-krita" (args !! 0%nat);
     headless := match args !! 1%nat with
                 | Some a => String.eqb a "reapply"
                 | None => false
                 end |}.

(** Lines 362 to 383.  [engine_of] is the engine [GmicQt::run] stands for in
    the progress-dialog mode ([true]) and in the full mode ([false]). *)
Definition main (E : Krita) (args : list QString) (engine_of : bool -> engine) : M Z :=
  qWarning "gmic-qt: socket Key:" ;;
  r <- run E (engine_of (headless (positional args))) ;;
  release E ;;
  ret r.

(** Every object made for a segment is in the registry or has been deleted,
    in the order of the uuids. *)
Definition accounted (E : Krita) (p : Process) : Prop :=
  key <$> (deleted p ++ sharedMemorySegments p) = segment_key E <$> seq 0 (uuids p).

(** No object was deleted while attached, unless its [detach] failed. *)
Definition detached (E : Krita) (p : Process) : Prop :=
  Forall (fun m => isAttached m = true -> detach_ok E (key m) = false) (deleted p).

Definition sound (E : Krita) (p : Process) : Prop := accounted E p /\ detached E p.

(** A computation that changes nothing but the warnings. *)
Definition only_warns {A} (m : M A) : Prop :=
  forall p, exists texts, final (m p) = log p texts.

Definition detach_message : string := "command=gmic_qt_detach".

End Plugin.

(** ** Facts about the Qt functions *)

Module QtFacts.
Import Qt.

Lemma toInt_range s : INT_MIN <= toInt s <= INT_MAX.
Proof.
  unfold toInt. destruct (parse_decimal _) as [z|]; [|by vm_compute].
  destruct (in_int z) eqn:Hz; [|by vm_compute].
  unfold in_int in Hz. apply andb_true_iff in Hz as [H1 H2]. lia.
Qed.

Lemma digitValue_nonneg c d : digitValue c = Some d -> 0 <= d.
Proof.
  unfold digitValue. destruct (_ && _) eqn:H; [|done].
  intros [= <-]. apply andb_true_iff in H as [H _]. lia.
Qed.

Lemma digits_value_nonneg l : forall acc z, 0 <= acc -> digits_value acc l = Some z -> 0 <= z.
Proof.
  induction l as [|c l IH]; simpl; intros acc z Hacc.
  - by intros [= <-].
  - destruct (digitValue c) as [d|] eqn:Hd; [|done].
    apply IH. apply digitValue_nonneg in Hd. lia.
Qed.

Lemma drop_spaces_subseteq l : drop_spaces l ⊆ l.
Proof.
  induction l as [|c l IH]; simpl; [done|].
  destruct (isSpace c); [|done]. by apply list_subseteq_cons.
Qed.

Lemma trimmed_subseteq l : trimmed l ⊆ l.
Proof.
  unfold trimmed. intros c Hc.
  apply list_elem_of_In, in_rev, list_elem_of_In, drop_spaces_subseteq in Hc.
  apply list_elem_of_In, in_rev, list_elem_of_In, drop_spaces_subseteq in Hc. done.
Qed.

(** A text without a minus sign is never read as a negative number. *)
Lemma toInt_nonneg s : "-"%char ∉ chars s -> 0 <= toInt s.
Proof.
  intros Hs. unfold toInt.
  destruct (parse_decimal _) as [z|] eqn:Hp; [|done].
  destruct (in_int z); [|done].
  unfold parse_decimal in Hp.
  destruct (trimmed (chars s)) as [|c l] eqn:Ht; [done|].
  destruct (Ascii.eqb c "-") eqn:Hc.
  - apply Ascii.eqb_eq in Hc as ->. exfalso. apply Hs, (trimmed_subseteq (chars s)).
    rewrite Ht. left.
  - destruct (Ascii.eqb c "+").
    + destruct l; [done|]. by apply digits_value_nonneg in Hp.
    + by apply digits_value_nonneg in Hp.
Qed.

Lemma chars_String c s : chars (String c s) = c :: chars s.
Proof. done. Qed.

Lemma split_keep_chars sep s p : p ∈ split_keep sep s -> chars p ⊆ chars s.
Proof.
  revert p. induction s as [|c s IH]; intros p Hp; cbn [split_keep] in Hp.
  - apply list_elem_of_singleton in Hp as ->. done.
  - rewrite chars_String. destruct (Ascii.eqb c sep).
    + apply elem_of_cons in Hp as [->|Hp]; [by apply list_subseteq_nil|].
      apply list_subseteq_cons. by apply IH.
    + destruct (split_keep sep s) as [|q qs].
      * apply list_elem_of_singleton in Hp as ->. rewrite chars_String.
        apply list_subseteq_skip, list_subseteq_nil.
      * apply elem_of_cons in Hp as [->|Hp].
        -- rewrite chars_String. apply list_subseteq_skip, IH. left.
        -- apply list_subseteq_cons. apply IH. by right.
Qed.

(** Every character of a field is a character of the text that was split. *)
Lemma split_chars sep s p : p ∈ split sep s -> chars p ⊆ chars s.
Proof.
  unfold split. intros Hp. apply list_elem_of_In, filter_In in Hp as [Hp _].
  apply list_elem_of_In in Hp. by eapply split_keep_chars.
Qed.

End QtFacts.

(** ** [getLayersExtent] *)

Module ExtentFacts.
Import Qt Host.

Lemma getLayersExtent_unfold E mode p :
  getLayersExtent E mode p =
  let answer := extent_answer E mode p in
  let p' := after_send p (image_size_message mode) in
  match answer, split "," answer with
  | String _ _, [w; h] => Returns (toInt w, toInt h) p'
  | _, _ => Returns (0, 0) p'
  end.
Proof.
  unfold getLayersExtent, bind, sendMessageSynchronously, extent_answer, image_size_message,
    toUtf8, fromUtf8.
  simpl. destruct (reply E _ _) as [|c s] eqn:Ha; [done|].
  cbn [String.length Nat.ltb Nat.leb].
  destruct (split "," (String c s)) as [|w [|h [|? ?]]]; done.
Qed.



(** C6, as the code has it: the width and the height are [int]s, the values
    [toInt] reads from the two fields; they are not negative when the
    response holds no minus sign. *)
Theorem getLayersExtent_int_range (E : Krita) (mode : Z) (p : Process) :
  exists w h p',
    getLayersExtent E mode p = Returns (w, h) p'
    /\ INT_MIN <= w <= INT_MAX /\ INT_MIN <= h <= INT_MAX
    /\ ("-"%char ∉ chars (extent_answer E mode p) -> 0 <= w /\ 0 <= h).
Proof.
  rewrite getLayersExtent_unfold. cbv zeta.
  assert (Hzero : INT_MIN <= 0 <= INT_MAX) by (by vm_compute).
  destruct (extent_answer E mode p) as [|c s] eqn:Ha.
  { eexists 0, 0, _. repeat split; try done; apply Hzero. }
  destruct (split "," (String c s)) as [|w [|h [|? ?]]] eqn:Hs;
    try (eexists 0, 0, _; repeat split; try done; apply Hzero).
  eexists (toInt w), (toInt h), _.
  split; [done|]. split; [apply QtFacts.toInt_range|]. split; [apply QtFacts.toInt_range|].
  intros Hminus.
  assert (Hw : w ∈ split "," (String c s)) by (rewrite Hs; left).
  assert (Hh : h ∈ split "," (String c s)) by (rewrite Hs; right; left).
  apply QtFacts.split_chars in Hw, Hh.
  split; apply QtFacts.toInt_nonneg; intros Hc; [apply Hminus, Hw, Hc | apply Hminus, Hh, Hc].
Qed.

(** C6 fails as stated: the response [-5,3] gives the width -5. *)
Lemma getLayersExtent_negative_width :
  getLayersExtent (Examples.krita "-5,3" [] 0) 1 started
  = Returns (-5, 3) (after_send started (image_size_message 1))
  /\ ~ (0 <= -5).
Proof. split; [by vm_compute | lia]. Qed.

End ExtentFacts.

(** ** [sendMessageSynchronously] *)

Module SocketFacts.
Import Qt Socket.

Lemma chars_empty : chars "" = [].
Proof. done. Qed.

(** While nothing arrives and the socket stays valid, the first loop goes on. *)
Lemma await_length_silent (p : Peer) (buffer : list ascii) :
  (forall k, arriving p k = EmptyString) ->
  (forall k, isValid p k = true) ->
  (length buffer < 4)%nat ->
  forall fuel k, await_length fuel p buffer k = None.
Proof.
  intros Hsilent Hvalid Hshort fuel.
  induction fuel as [|fuel IH]; intros k; simpl; [done|].
  destruct (Z.ltb_spec (Z.of_nat (length buffer)) 4) as [_|?]; [|lia].
  rewrite Hvalid, Hsilent, chars_empty, app_nil_r. simpl. apply IH.
Qed.

(** When nothing arrives, the first loop ends at the first check that finds
    the socket invalid. *)
Lemma await_length_stale (p : Peer) (buffer : list ascii) (n : nat) :
  (forall k, arriving p k = EmptyString) ->
  isValid p n = false ->
  (length buffer < 4)%nat ->
  forall fuel k,
    (k <= n)%nat -> (n - k < fuel)%nat ->
    (forall j, (k <= j < n)%nat -> isValid p j = true) ->
    await_length fuel p buffer k = Some (Stale n).
Proof.
  intros Hsilent Hn Hshort fuel.
  induction fuel as [|fuel IH]; intros k Hk Hfuel Hvalid; [lia|]. simpl.
  destruct (Z.ltb_spec (Z.of_nat (length buffer)) 4) as [_|?]; [|lia].
  destruct (decide (k = n)) as [->|Hne].
  - by rewrite Hn.
  - rewrite Hvalid by lia. simpl. rewrite Hsilent, chars_empty, app_nil_r.
    apply IH; [lia | lia | intros j Hj; apply Hvalid; lia].
Qed.

(** C9, as the code has it: after a successful connection, with no byte of
    the response ever arriving, the call returns at the first check that
    finds the socket invalid, with an empty response, the warning and one
    wait of 1000 ms per earlier check; for as long as the socket stays valid
    the first loop goes on, whatever the number of iterations allowed. *)
Theorem sendMessageSynchronously_silent_peer (p : Peer) (ba : string) :
  waitForConnected p = true ->
  (forall k, arriving p k = EmptyString) ->
  (forall n, (forall k, (k < n)%nat -> isValid p k = true) -> isValid p n = false ->
     forall fuel, (n < fuel)%nat ->
       sendMessageSynchronously fuel p ba
       = Some {| answer := ""; warnings := ["Stale request"]; written := [writeBytes ba];
                 waits := n;
                 waited_ms := connect_ms + written_ms + poll_ms * Z.of_nat n |})
  /\ ((forall k, isValid p k = true) ->
      forall fuel, sendMessageSynchronously fuel p ba = None).
Proof.
  intros Hconn Hsilent. split.
  - intros n Hvalid Hn fuel Hfuel. unfold sendMessageSynchronously. rewrite Hconn. simpl.
    rewrite (await_length_stale p [] n Hsilent Hn) ; [done | simpl; lia | lia | lia |].
    intros j Hj. apply Hvalid. lia.
  - intros Hvalid fuel. unfold sendMessageSynchronously. rewrite Hconn. simpl.
    by rewrite (await_length_silent p [] Hsilent Hvalid) by (simpl; lia).
Qed.

Lemma sendMessageSynchronously_silent_peer_witness :
  sendMessageSynchronously 4 (scripted [] (Some 3%nat)) "command=gmic_qt_detach"
  = Some {| answer := ""; warnings := ["Stale request"];
            written := [writeBytes "command=gmic_qt_detach"]; waits := 3;
            waited_ms := 34000 |}.
Proof.
  apply (proj1 (sendMessageSynchronously_silent_peer
                  (scripted [] (Some 3%nat)) "command=gmic_qt_detach"
                  eq_refl (fun k => eq_refl)) 3%nat).
  - intros k Hk. simpl. apply Nat.ltb_lt. exact Hk.
  - reflexivity.
  - lia.
Defined.

(** C9 fails as stated: on a socket that stays valid and delivers nothing,
    no number of iterations lets the call return. *)
Lemma sendMessageSynchronously_never_returns :
  ~ (exists fuel r,
       sendMessageSynchronously fuel (scripted [] None) "command=gmic_qt_detach" = Some r).
Proof.
  intros (fuel & r & Hr). unfold sendMessageSynchronously in Hr. simpl in Hr.
  rewrite (await_length_silent (scripted [] None) []) in Hr; [done | done | done | simpl; lia].
Qed.

End SocketFacts.

(** ** [getCroppedImages] *)

Module CropFacts.
Import Qt Host.

Lemma log_nil p : log p [] = p.
Proof. destruct p. unfold log. simpl. by rewrite app_nil_r. Qed.

Lemma log_log p a b : log (log p a) b = log p (a ++ b).
Proof. unfold log. simpl. by rewrite app_assoc. Qed.

Lemma when_qWarning b text p :
  when b (qWarning text) p = Returns tt (log p (if b then [text] else [])).
Proof. destruct b; simpl; [done|]. unfold ret. by rewrite log_nil. Qed.

Lemma at_Some {A} (l : list A) i a p : l !! i = Some a -> at_ l i p = Returns a p.
Proof. unfold at_. by intros ->. Qed.

Lemma at_None {A} (l : list A) i p : l !! i = None -> at_ l i p = Faults IndexOutOfRange p.
Proof. unfold at_. by intros ->. Qed.

Lemma set_at_middle {A} (done rest : list A) old a p :
  set_at (done ++ old :: rest) (length done) a p = Returns (done ++ a :: rest) p.
Proof.
  unfold set_at. rewrite length_app. simpl.
  destruct (Nat.ltb_spec (length done) (length done + S (length rest))) as [_|?]; [|lia].
  rewrite insert_app_r_alt by lia. by rewrite Nat.sub_diag.
Qed.

(** One turn of the first loop on a line of at least four fields. *)
Lemma parse_layers_step layer layers done old rest keys szs p :
  (4 <= length (layer_parts layer))%nat ->
  parse_layers (layer :: layers) (length done)
    {| imageNames_of := done ++ old :: rest; memoryKeys := keys; sizes := szs |} p
  = parse_layers layers (S (length done))
      {| imageNames_of := done ++ layer_name layer :: rest;
         memoryKeys := keys ++ [layer_key layer];
         sizes := szs ++ [layer_size layer] |} (log p (layer_warning layer)).
Proof.
  intros Hlen. cbn [parse_layers].
  unfold layer_name, layer_key, layer_size, layer_warning, layer_parts in *.
  destruct (split "," layer) as [|p0 [|p1 [|p2 [|p3 tl]]]]; simpl in Hlen; try lia.
  unfold bind at 1. cbn [imageNames_of memoryKeys sizes].
  destruct tl as [|p4 tl]; simpl.
  - unfold bind, ret. simpl. rewrite set_at_middle. by rewrite log_nil.
  - unfold bind, ret. simpl. rewrite set_at_middle. done.
Qed.

(** The first loop on lines of at least four fields each: every line adds
    its name, its key and its size, in the order of the lines. *)
Lemma parse_layers_ok layers : forall done rest keys szs p,
  Forall (fun layer => (4 <= length (layer_parts layer))%nat) layers ->
  length rest = length layers ->
  parse_layers layers (length done)
    {| imageNames_of := done ++ rest; memoryKeys := keys; sizes := szs |} p
  = Returns {| imageNames_of := done ++ (layer_name <$> layers);
               memoryKeys := keys ++ (layer_key <$> layers);
               sizes := szs ++ (layer_size <$> layers) |}
            (log p (layers ≫= layer_warning)).
Proof.
  induction layers as [|layer layers IH]; intros done rest keys szs p Hwf Hlen.
  - destruct rest; [|done]. simpl. unfold ret. by rewrite !app_nil_r, log_nil.
  - destruct rest as [|old rest]; [done|]. apply Forall_cons in Hwf as [Hl Hwf].
    rewrite parse_layers_step by done.
    replace (S (length done)) with (length (done ++ [layer_name layer]))
      by (rewrite length_app; simpl; lia).
    rewrite (cons_middle _ done rest), app_assoc.
    rewrite IH by (done || (simpl in Hlen; lia)).
    rewrite log_log. simpl. by rewrite <- !app_assoc.
Qed.

Lemma bind_Faults_inv {A B} (m : M A) (k : A -> M B) p f p' :
  bind m k p = Faults f p' ->
  m p = Faults f p' \/ exists a p1, m p = Returns a p1 /\ k a p1 = Faults f p'.
Proof.
  unfold bind. destruct (m p) as [a p1|f1 p1]; intros H.
  - right. by exists a, p1.
  - left. by injection H as -> ->.
Qed.

Lemma bind_Returns_inv {A B} (m : M A) (k : A -> M B) p b p' :
  bind m k p = Returns b p' -> exists a p1, m p = Returns a p1 /\ k a p1 = Returns b p'.
Proof.
  unfold bind. destruct (m p) as [a p1|f1 p1]; intros H; [|done]. by exists a, p1.
Qed.

Lemma at_Faults_inv {A} (l : list A) i p f p' :
  at_ l i p = Faults f p' -> f = IndexOutOfRange /\ p' = p /\ (length l <= i)%nat.
Proof.
  unfold at_. destruct (l !! i) eqn:Hl; [done|]. intros [= <- <-].
  by apply lookup_ge_None in Hl.
Qed.

Lemma at_Returns_inv {A} (l : list A) i p a p' :
  at_ l i p = Returns a p' -> l !! i = Some a /\ p' = p.
Proof. unfold at_. destruct (l !! i); [by intros [= <- <-] | done]. Qed.

Lemma set_at_Faults_inv {A} (l : list A) i a p f p' :
  set_at l i a p = Faults f p' -> f = IndexOutOfRange /\ p' = p.
Proof. unfold set_at. case_match; [done|]. by intros [= <- <-]. Qed.

Lemma set_at_Returns_inv {A} (l : list A) i a p r p' :
  set_at l i a p = Returns r p' -> r = <[i:=a]> l /\ p' = p /\ (i < length l)%nat.
Proof.
  unfold set_at. destruct (Nat.ltb_spec i (length l)); [|done]. by intros [= <- <-].
Qed.

Ltac fault_step H :=
  apply bind_Faults_inv in H as [H | (? & ? & _ & H)].

Tactic Notation "return_step" hyp(H) "as" simple_intropattern(a) simple_intropattern(q)
    simple_intropattern(H1) :=
  apply bind_Returns_inv in H as (a & q & H1 & H).

(** The first loop stops at a line of fewer than four fields: it only
    returns when every line has four fields or more. *)
Lemma parse_layers_Returns layers : forall i acc p r p',
  parse_layers layers i acc p = Returns r p' ->
  Forall (fun layer => (4 <= length (layer_parts layer))%nat) layers.
Proof.
  induction layers as [|layer layers IH]; intros i acc p r p' Hr; [done|].
  cbn [parse_layers] in Hr.
  return_step Hr as ? ? _. return_step Hr as ? ? _. return_step Hr as ? ? _.
  return_step Hr as ? ? _. return_step Hr as ? ? _. return_step Hr as p3 ? Hp3.
  apply Forall_cons. split; [|by eapply IH].
  apply at_Returns_inv in Hp3 as [Hlookup _].
  by apply lookup_lt_Some in Hlookup.
Qed.

(** The only fault of the first loop is an index past the end of a list. *)
Lemma parse_layers_fault layers : forall i acc p f p',
  parse_layers layers i acc p = Faults f p' -> f = IndexOutOfRange.
Proof.
  induction layers as [|layer layers IH]; intros i acc p f p' Hr; [done|].
  cbn [parse_layers] in Hr.
  fault_step Hr; [by rewrite when_qWarning in Hr|].
  fault_step Hr; [by apply at_Faults_inv in Hr as [-> _]|].
  fault_step Hr; [by apply at_Faults_inv in Hr as [-> _]|].
  fault_step Hr; [by apply set_at_Faults_inv in Hr as [-> _]|].
  fault_step Hr; [by apply at_Faults_inv in Hr as [-> _]|].
  fault_step Hr; [by apply at_Faults_inv in Hr as [-> _]|].
  by eapply IH.
Qed.

(** A line of fewer than four fields stops the first loop with an index out
    of range. *)
Lemma parse_layers_short layers : forall i acc p,
  Exists (fun layer => (length (layer_parts layer) < 4)%nat) layers ->
  exists p', parse_layers layers i acc p = Faults IndexOutOfRange p'.
Proof.
  intros i acc p Hshort.
  destruct (parse_layers layers i acc p) as [r p'|f p'] eqn:Hr.
  - apply parse_layers_Returns in Hr. exfalso.
    apply Exists_exists in Hshort as (layer & Hin & Hlt).
    rewrite Forall_forall in Hr. apply Hr in Hin. lia.
  - apply parse_layers_fault in Hr as ->. eauto.
Qed.

(** The copy of lines 214 to 216 gives [segment_image] when it is defined,
    and faults otherwise. *)
Lemma image_of_segment_cases w h segment p :
  (copy_defined w h segment = true
   /\ image_of_segment w h segment p = Returns (segment_image w h segment) p)
  \/ (copy_defined w h segment = false
      /\ exists f, image_of_segment w h segment p = Faults f p).
Proof.
  unfold copy_defined, image_of_segment, segment_image, assign, in_int, INT_MIN, INT_MAX.
  replace (w * h * 1 * 4) with (w * h * 4) by lia.
  destruct (Z.eqb_spec (w * h) 0) as [Hz|Hz].
  { left. split; [reflexivity|]. destruct (Z.eqb_spec (w * h * 4) 0) as [_|?]; [|lia].
    rewrite Hz. change (0 * 4) with 0.
    destruct (Z.ltb_spec (Z.of_nat (length segment)) 0); [lia|]. reflexivity. }
  destruct (Z.eqb_spec (w * h * 4) 0) as [?|_]; [lia|]. simpl.
  destruct (Z.ltb_spec w 0) as [Hw|Hw]; simpl.
  { right. destruct (Z.ltb_spec 0 w); [lia|]. eauto. }
  destruct (Z.ltb_spec h 0) as [Hh|Hh]; simpl.
  { right. destruct (Z.ltb_spec 0 h); [lia|]. rewrite andb_false_r. eauto. }
  assert (0 < w /\ 0 < h) as [Hw' Hh'] by nia.
  destruct (Z.ltb_spec 0 w); [|lia]. destruct (Z.ltb_spec 0 h); [|lia]. simpl.
  destruct (Z.leb_spec (- 2 ^ 31) (w * h)); [|nia]. simpl.
  destruct (Z.leb_spec (w * h * 4) (2 ^ 31 - 1)) as [Hmax|Hmax]; simpl.
  2:{ right. split; [done|]. destruct (Z.leb_spec (w * h) (2 ^ 31 - 1)); simpl; [|eauto].
      destruct (Z.leb_spec (- 2 ^ 31) (w * h * 4)); simpl; eauto. }
  destruct (Z.leb_spec (w * h) (2 ^ 31 - 1)); [|nia]. simpl.
  destruct (Z.leb_spec (- 2 ^ 31) (w * h * 4)); [|nia]. simpl.
  rewrite length_replicate, Z2Nat.id by nia.
  destruct (Z.ltb_spec (w * h * 4) (w * h * 4)); [lia|]. rewrite orb_false_r.
  destruct (Z.leb_spec (w * h * 4) (Z.of_nat (length segment))) as [Hfit|Hfit].
  - left. split; [done|]. destruct (Z.ltb_spec (Z.of_nat (length segment)) (w * h * 4)); [lia|].
    unfold ret. do 2 f_equal.
    rewrite drop_ge by (rewrite length_replicate; lia). by rewrite app_nil_r.
  - right. split; [done|].
    destruct (Z.ltb_spec (Z.of_nat (length segment)) (w * h * 4)); [|lia]. eauto.
Qed.

Section Fill.
Variable E : Krita.

(** One turn of the second loop. *)
Lemma fill_images_step layer layers done sdone old rest p :
  layer_defined E layer = true ->
  length sdone = length done ->
  exists p',
    fill_images E (layer_key layer :: layers) (length done)
      (sdone ++ layer_size layer :: rest) (done ++ empty_image :: old) p
    = fill_images E layers (S (length done))
        (sdone ++ layer_size layer :: rest) (done ++ layer_image E layer :: old) p'
    /\ sent p' = sent p.
Proof.
  intros Hdef Hlen. cbn [fill_images]. unfold layer_defined, layer_image in *.
  destruct (attach E (layer_key layer)) as [segment|].
  - destruct (image_of_segment_cases (layer_size layer).1 (layer_size layer).2 segment
                (log p (if negb (lock_ok E (layer_key layer))
                        then ["	gmic-qt: Could not lock memory segment"] else [])))
      as [[_ Himg]|[Hno _]]; [|congruence].
    eexists. split.
    + unfold bind at 1. rewrite when_qWarning.
      unfold bind at 1. rewrite (at_Some _ _ (layer_size layer))
        by (rewrite <- Hlen; apply list_lookup_middle; done).
      unfold bind at 1. rewrite Himg.
      unfold bind at 1. rewrite set_at_middle.
      unfold bind at 1. rewrite when_qWarning.
      unfold bind at 1. rewrite when_qWarning. reflexivity.
    + done.
  - eexists. split; [|shelve]. unfold bind, qWarning. reflexivity.
    Unshelve. done.
Qed.

(** The second loop when every copy is defined: image [i] is the image of
    line [i]. *)
Lemma fill_images_ok layers : forall done sdone p,
  Forall (fun layer => layer_defined E layer = true) layers ->
  length sdone = length done ->
  exists p',
    fill_images E (layer_key <$> layers) (length done)
      (sdone ++ (layer_size <$> layers)) (done ++ replicate (length layers) empty_image) p
    = Returns (done ++ (layer_image E <$> layers)) p'
    /\ sent p' = sent p.
Proof.
  induction layers as [|layer layers IH]; intros done sdone p Hdef Hlen.
  - exists p. by rewrite !app_nil_r.
  - apply Forall_cons in Hdef as [Hl Hdef]. cbn [fmap list_fmap length replicate].
    destruct (fill_images_step layer (layer_key <$> layers) done sdone
                (replicate (length layers) empty_image) (layer_size <$> layers) p Hl Hlen)
      as (p1 & -> & Hsent).
    destruct (IH (done ++ [layer_image E layer]) (sdone ++ [layer_size layer]) p1 Hdef)
      as (p' & Hrun & Hsent'); [rewrite !length_app; simpl; lia|].
    exists p'. split; [|congruence].
    rewrite length_app, <- !app_assoc in Hrun. simpl in Hrun.
    rewrite Nat.add_1_r in Hrun. exact Hrun.
Qed.

(** The second loop only returns when every copy was defined. *)
Lemma fill_images_Returns layers : forall sdone images p r p',
  fill_images E (layer_key <$> layers) (length sdone)
    (sdone ++ (layer_size <$> layers)) images p = Returns r p' ->
  Forall (fun layer => layer_defined E layer = true) layers.
Proof.
  induction layers as [|layer layers IH]; intros sdone images p r p' Hr; [done|].
  cbn [fmap list_fmap fill_images] in Hr.
  assert (Hnext : forall imgs q,
    fill_images E (layer_key <$> layers) (S (length sdone))
      (sdone ++ layer_size layer :: (layer_size <$> layers)) imgs q = Returns r p' ->
    Forall (fun layer => layer_defined E layer = true) layers).
  { intros imgs q Hq. apply (IH (sdone ++ [layer_size layer]) imgs q r p').
    rewrite length_app, <- app_assoc. simpl. by rewrite Nat.add_1_r. }
  apply Forall_cons. unfold layer_defined at 1.
  destruct (attach E (layer_key layer)) as [segment|].
  - return_step Hr as ? q1 _. return_step Hr as size q2 Hsize.
    apply at_Returns_inv in Hsize as [Hsize ->].
    rewrite list_lookup_middle in Hsize by done. injection Hsize as <-.
    return_step Hr as gimg q3 Himg. return_step Hr as ? ? _.
    return_step Hr as ? ? _. return_step Hr as ? ? _.
    split; [|by eapply Hnext].
    destruct (image_of_segment_cases (layer_size layer).1 (layer_size layer).2 segment q1)
      as [[Hdef _]|[_ [f Hf]]]; [done|congruence].
  - return_step Hr as ? ? _. return_step Hr as ? ? _. split; [done|by eapply Hnext].
Qed.

End Fill.

(** *** The messages a call sends *)

Lemma final_bind {A B} (m : M A) (k : A -> M B) p :
  final (bind m k p)
  = match m p with Returns a p1 => final (k a p1) | Faults _ p1 => p1 end.
Proof. unfold bind. by destruct (m p). Qed.

Lemma grows_bind {A B} (m : M A) (k : A -> M B) :
  grows m -> (forall a, grows (k a)) -> grows (bind m k).
Proof.
  intros Hm Hk p. rewrite final_bind. specialize (Hm p).
  destruct (m p) as [a p1|f p1]; simpl in Hm; [|done].
  etrans; [exact Hm | apply Hk].
Qed.

Lemma grows_ret {A} (a : A) : grows (ret a).
Proof. by intros p. Qed.

Lemma grows_throw {A} f : grows (@throw A f).
Proof. by intros p. Qed.

Lemma grows_qWarning text : grows (qWarning text).
Proof. by intros p. Qed.

Lemma grows_when b m : grows m -> grows (when b m).
Proof. destruct b; [done|]. intros _. apply grows_ret. Qed.

Lemma grows_at {A} (l : list A) i : grows (at_ l i).
Proof. unfold at_. destruct (l !! i); [apply grows_ret | apply grows_throw]. Qed.

Lemma grows_set_at {A} (l : list A) i a : grows (set_at l i a).
Proof. unfold set_at. case_match; [apply grows_ret | apply grows_throw]. Qed.

Lemma grows_send E ba : grows (sendMessageSynchronously E ba).
Proof. intros p. simpl. by apply prefix_app_r. Qed.

Lemma grows_image_of_segment w h segment : grows (image_of_segment w h segment).
Proof.
  unfold image_of_segment. destruct (assign w h 1 4); [|apply grows_throw].
  repeat case_match; (apply grows_ret || apply grows_throw).
Qed.

Ltac grows :=
  repeat first
    [ apply grows_ret | apply grows_throw | apply grows_qWarning | apply grows_at
    | apply grows_set_at | apply grows_send | apply grows_image_of_segment
    | apply grows_when | apply grows_bind | intros ? ].

Lemma grows_parse_layers layers : forall i acc, grows (parse_layers layers i acc).
Proof.
  induction layers as [|layer layers IH]; intros i acc; cbn [parse_layers]; [apply grows_ret|].
  grows. apply IH.
Qed.

Lemma grows_fill_images E keys : forall i sizes images, grows (fill_images E keys i sizes images).
Proof.
  induction keys as [|key keys IH]; intros i sizes images; cbn [fill_images]; [apply grows_ret|].
  destruct (attach E key); grows; apply IH.
Qed.

(** Whatever a call of [getCroppedImages] does afterwards, the message of
    line 162 is the first one it sends. *)
Lemma getCroppedImages_first_message E images imageNames x y width height mode p :
  sent (final (getCroppedImages E images imageNames x y width height mode p))
    !! length (sent p)
  = Some (croprect_message E (croprect x y width height) mode).
Proof.
  unfold getCroppedImages, toUtf8, fromUtf8. rewrite final_bind. cbn [sendMessageSynchronously].
  match goal with
  | |- sent (final (?k ?q)) !! _ = _ =>
      assert (Hk : grows k);
      [|destruct (Hk q) as [tail Htail]; cbn [sent] in Htail;
        rewrite Htail, <- app_assoc; by apply list_lookup_middle]
  end.
  destruct (isEmpty _); grows; (apply grows_parse_layers || apply grows_fill_images).
Qed.

(** *** The lists a call returns *)

Lemma isEmpty_false s : s <> EmptyString -> isEmpty s = false.
Proof. by destruct s. Qed.

(** A non-empty response whose lines have four fields or more each, with
    every copy defined: the call returns the images and the names of the
    lines, in the order of the lines. *)
Lemma getCroppedImages_run E images imageNames x y width height mode p :
  let lines := crop_lines (crop_answer E x y width height mode p) in
  crop_answer E x y width height mode p <> EmptyString ->
  Forall (fun layer => (4 <= length (layer_parts layer))%nat) lines ->
  Forall (fun layer => layer_defined E layer = true) lines ->
  exists p',
    getCroppedImages E images imageNames x y width height mode p
    = Returns (layer_image E <$> lines, layer_name <$> lines) p'
    /\ lines ≫= layer_warning ⊆ warnings p'.
Proof.
  intros lines Hne Hwf Hdef. unfold getCroppedImages, toUtf8, fromUtf8.
  unfold bind at 1. cbn [sendMessageSynchronously].
  fold (crop_answer E x y width height mode p). rewrite (isEmpty_false _ Hne).
  fold (crop_lines (crop_answer E x y width height mode p)). fold lines.
  set (q := {| sharedMemorySegments := sharedMemorySegments p |}).
  pose proof (parse_layers_ok lines [] (replicate (length lines) EmptyString) [] [] q Hwf
                (length_replicate _ _)) as Hparse.
  cbn [length app] in Hparse. unfold bind at 1. rewrite Hparse.
  cbn [memoryKeys sizes imageNames_of].
  destruct (fill_images_ok E lines [] [] (log q (lines ≫= layer_warning)) Hdef eq_refl)
    as (p1 & Hfill & Hsent).
  cbn [length app] in Hfill. unfold bind at 1. rewrite Hfill.
  eexists. split; [reflexivity|].
  cbn [sendMessageSynchronously warnings].
  assert (Hgrow : forall keys i sizes images p0 r p0',
            fill_images E keys i sizes images p0 = Returns r p0' ->
            warnings p0 ⊆ warnings p0').
  { clear. induction keys as [|key keys IH]; intros i sizes images p0 r p0' Hr.
    - by injection Hr as _ <-.
    - cbn [fill_images] in Hr. destruct (attach E key) as [segment|].
      + return_step Hr as ? q1 H1. rewrite when_qWarning in H1. injection H1 as _ <-.
        return_step Hr as size q2 H2. apply at_Returns_inv in H2 as [_ ->].
        return_step Hr as ? q3 H3.
        destruct (image_of_segment_cases size.1 size.2 segment
                    (log p0 (if negb (lock_ok E key)
                             then ["	gmic-qt: Could not lock memory segment"] else [])))
          as [[_ Hi]|[_ [f Hf]]]; [|congruence].
        rewrite Hi in H3. injection H3 as _ <-.
        return_step Hr as ? q4 H4. apply set_at_Returns_inv in H4 as (_ & -> & _).
        return_step Hr as ? q5 H5. rewrite when_qWarning in H5. injection H5 as _ <-.
        return_step Hr as ? q6 H6. rewrite when_qWarning in H6. injection H6 as _ <-.
        apply IH in Hr. etrans; [|exact Hr]. cbn [log warnings].
        rewrite <- !app_assoc. by apply list_subseteq_app_l.
      + return_step Hr as ? q1 H1. injection H1 as _ <-.
        return_step Hr as ? q2 H2. injection H2 as _ <-.
        apply IH in Hr. etrans; [|exact Hr]. cbn [warnings].
        rewrite <- !app_assoc. by apply list_subseteq_app_l. }
  apply Hgrow in Hfill. etrans; [|exact Hfill].
  cbn [log warnings]. by apply list_subseteq_app_r.
Qed.

(** A call that returns on a non-empty response has met lines of four fields
    or more only, and defined copies only. *)
Lemma getCroppedImages_Returns E images imageNames x y width height mode p r p' :
  let lines := crop_lines (crop_answer E x y width height mode p) in
  crop_answer E x y width height mode p <> EmptyString ->
  getCroppedImages E images imageNames x y width height mode p = Returns r p' ->
  Forall (fun layer => (4 <= length (layer_parts layer))%nat) lines
  /\ Forall (fun layer => layer_defined E layer = true) lines.
Proof.
  intros lines Hne Hr. unfold getCroppedImages, toUtf8, fromUtf8 in Hr.
  unfold bind at 1 in Hr. cbn [sendMessageSynchronously] in Hr.
  fold (crop_answer E x y width height mode p) in Hr. rewrite (isEmpty_false _ Hne) in Hr.
  fold (crop_lines (crop_answer E x y width height mode p)) in Hr. fold lines in Hr.
  return_step Hr as got q1 Hparse. return_step Hr as imgs q2 Hfill.
  pose proof (parse_layers_Returns _ _ _ _ _ _ Hparse) as Hwf. split; [done|].
  match type of Hparse with
  | parse_layers _ _ _ ?q = _ =>
      pose proof (parse_layers_ok lines [] (replicate (length lines) EmptyString) [] [] q Hwf
                    (length_replicate _ _)) as Hok
  end.
  cbn [length app] in Hok. rewrite Hok in Hparse. injection Hparse as <- <-.
  cbn [memoryKeys sizes] in Hfill.
  by apply (fill_images_Returns E lines [] _ _ _ _ Hfill).
Qed.

(** *** The claims on [getCroppedImages] *)

(** Settles a property of every line of a concrete response: the lines are
    computed first, then the property is evaluated line by line. *)
Tactic Notation "each_line" "by" tactic3(tac) :=
  lazymatch goal with
  | |- Forall ?P ?l =>
      let l' := eval vm_compute in l in
      change (Forall P l');
      repeat first [apply List.Forall_nil | apply List.Forall_cons; [tac|]]
  end.

Tactic Notation "each_line" := each_line by (vm_compute; reflexivity).

Lemma example_line :
  crop_lines "key1,6c617965723031,4,2,2" = ["key1,6c617965723031,4,2,2"%string]
  /\ layer_key "key1,6c617965723031,4,2,2" = "key1"%string
  /\ layer_name "key1,6c617965723031,4,2,2" = "layer01"%string
  /\ layer_size "key1,6c617965723031,4,2,2" = (4, 2)
  /\ length (layer_parts "key1,6c617965723031,4,2,2") = 5%nat.
Proof. by vm_compute. Qed.




(** C2, as the code has it: the line [key1,6c617965723031,4,2,2] has five
    fields, so the warning of line 188 is logged; the third and the fourth
    field are read as the width and the height, which gives one image of
    width 4 and height 2, in 4 channels, named layer01. *)
Theorem getCroppedImages_five_field_line
    (E : Krita) (images : list gmic_image) (imageNames : list string)
    (x y width height : PrimFloat.float) (mode : Z) (p : Process) (segment : list Z) :
  crop_answer E x y width height mode p = "key1,6c617965723031,4,2,2" ->
  attach E "key1" = Some segment ->
  (32 <= length segment)%nat ->
  exists p',
    getCroppedImages E images imageNames x y width height mode p
    = Returns ([{| _width := 4; _height := 2; _depth := 1; _spectrum := 4;
                   _data := take 32 segment |}], ["layer01"]) p'
    /\ wrong_answer ∈ warnings p'.
Proof.
  intros Hanswer Hattach Hlen.
  destruct example_line as (Hlines & Hkey & Hname & Hsize & Hparts).
  pose proof (getCroppedImages_run E images imageNames x y width height mode p) as Hrun.
  cbv zeta in Hrun. rewrite Hanswer, Hlines in Hrun.
  destruct Hrun as (p' & Hrun & Hwarn); [done | | |].
  - apply List.Forall_cons; [|apply List.Forall_nil]. rewrite Hparts. lia.
  - apply List.Forall_cons; [|apply List.Forall_nil]. unfold layer_defined.
    rewrite Hkey, Hattach, Hsize. unfold copy_defined. cbn [fst snd].
    destruct (Z.leb_spec (4 * 2 * 4) (Z.of_nat (length segment))); [done|lia].
  - exists p'. split.
    + rewrite Hrun. cbn [fmap list_fmap]. unfold layer_image.
      rewrite Hkey, Hattach, Hsize, Hname. reflexivity.
    + apply Hwarn. cbn [mbind list_bind app]. unfold layer_warning. rewrite Hparts. left.
Qed.

Lemma getCroppedImages_five_field_line_witness :
  exists p',
    getCroppedImages (Examples.krita (Examples.five_fields "4") [("key1"%string, Examples.ramp 40)] 0)
      [] [] Examples.minus_one Examples.minus_one Examples.minus_one Examples.minus_one 1 started
    = Returns ([{| _width := 4; _height := 2; _depth := 1; _spectrum := 4;
                   _data := take 32 (Examples.ramp 40) |}], ["layer01"]) p'
    /\ wrong_answer ∈ warnings p'.
Proof.
  apply (getCroppedImages_five_field_line
           (Examples.krita (Examples.five_fields "4") [("key1"%string, Examples.ramp 40)] 0)
           [] [] Examples.minus_one Examples.minus_one Examples.minus_one Examples.minus_one
           1 started (Examples.ramp 40)).
  - reflexivity.
  - reflexivity.
  - vm_compute. lia.
Defined.

(** C2 fails as stated: with a segment of 4 x 2 x 4 samples under [key1] the
    image of the example is 4 wide, not 2. *)
Lemma getCroppedImages_example_is_4_wide :
  ~ (exists gimg names p',
       getCroppedImages
         (Examples.krita (Examples.five_fields "4") [("key1"%string, Examples.ramp 32)] 0)
         [] [] Examples.minus_one Examples.minus_one Examples.minus_one Examples.minus_one
         1 started
       = Returns ([gimg], names) p'
       /\ _width gimg = 2 /\ _height gimg = 2 /\ _spectrum gimg = 4).
Proof.
  intros (gimg & names & p' & Hrun & Hw & _).
  vm_compute in Hrun. injection Hrun as <- _ _. discriminate Hw.
Qed.

(** With the segment of 2 x 2 x 4 samples that the example calls for, the
    copy of 4 x 2 x 4 samples runs past the end of the segment. *)
Lemma getCroppedImages_example_overruns :
  exists p',
    getCroppedImages
      (Examples.krita (Examples.five_fields "4") [("key1"%string, Examples.ramp 16)] 0)
      [] [] Examples.minus_one Examples.minus_one Examples.minus_one Examples.minus_one
      1 started
    = Faults BufferOverrun p'.
Proof. eexists. vm_compute. reflexivity. Qed.

(** C3 fails on the code: a line of fewer than four fields is warned about,
    and then the read of a field it does not have stops the call, so that no
    later line is parsed. *)
Theorem getCroppedImages_short_line
    (E : Krita) (images : list gmic_image) (imageNames : list string)
    (x y width height : PrimFloat.float) (mode : Z) (p : Process) :
  crop_answer E x y width height mode p <> EmptyString ->
  Exists (fun layer => (length (split "," layer) < 4)%nat)
         (crop_lines (crop_answer E x y width height mode p)) ->
  exists p',
    getCroppedImages E images imageNames x y width height mode p
    = Faults IndexOutOfRange p'.
Proof.
  intros Hne Hshort. unfold getCroppedImages, toUtf8, fromUtf8, bind at 1. cbn [sendMessageSynchronously].
  fold (crop_answer E x y width height mode p). rewrite (isEmpty_false _ Hne).
  fold (crop_lines (crop_answer E x y width height mode p)).
  unfold bind at 1.
  match goal with
  | |- context [parse_layers ?l ?i ?acc ?q] =>
      destruct (parse_layers_short l i acc q Hshort) as [p' ->]
  end.
  by exists p'.
Qed.

Lemma getCroppedImages_short_line_witness :
  exists p',
    getCroppedImages (Examples.krita Examples.short_first_line Examples.two_segments 0) [] []
      Examples.minus_one Examples.minus_one Examples.minus_one Examples.minus_one 1 started
    = Faults IndexOutOfRange p'.
Proof.
  apply (getCroppedImages_short_line
           (Examples.krita Examples.short_first_line Examples.two_segments 0) [] []
           Examples.minus_one Examples.minus_one Examples.minus_one Examples.minus_one
           1 started).
  - vm_compute. discriminate.
  - vm_compute. left. lia.
Defined.

(** Lines of more than four fields are warned about and parsed like the
    others: the call goes on to the lines that follow. *)
Lemma getCroppedImages_long_line_example :
  exists p',
    getCroppedImages
      (Examples.krita (Examples.five_fields "2" +:+ nl +:+ "key2,6c617965723032,1,1")
                      Examples.two_segments 0)
      [] [] Examples.minus_one Examples.minus_one Examples.minus_one Examples.minus_one
      1 started
    = Returns ([Examples.pixel 2 2; Examples.pixel 1 1], ["layer01"; "layer02"]) p'
    /\ warnings p' = [wrong_answer].
Proof. eexists. vm_compute. split; reflexivity. Qed.

(** With the texts 0 and 1 for the doubles 0 and 1, the message for an
    all-negative rectangle reads as follows. *)
Lemma getCroppedImages_entire_image_example :
  sent (final (getCroppedImages (Examples.krita "" [] 0) [] []
                 Examples.minus_one Examples.minus_one Examples.minus_one Examples.minus_one
                 1 started))
  = ["command=gmic_qt_get_cropped_images" +:+ nl +:+ "mode=1" +:+ nl +:+ "croprect=0,0,1,1"].
Proof. by vm_compute. Qed.

(** C10, as the code has it: an image the call has filled has depth 1 and 4
    channels, its width and height are the numbers read from the third and
    the fourth field of its line, and its samples are the first
    width x height x 4 samples of the segment.  No field of a line is set
    aside for the channels: in a line [key,name,channels,width,height] the
    channel count is the third field, which is read as the width. *)
Theorem getCroppedImages_buffers
    (E : Krita) (images : list gmic_image) (imageNames : list string)
    (x y width height : PrimFloat.float) (mode : Z) (p : Process)
    (imgs : list gmic_image) (names : list string) (p' : Process) :
  crop_answer E x y width height mode p <> EmptyString ->
  getCroppedImages E images imageNames x y width height mode p = Returns (imgs, names) p' ->
  forall i gimg, imgs !! i = Some gimg -> gimg <> empty_image ->
    exists layer segment,
      crop_lines (crop_answer E x y width height mode p) !! i = Some layer
      /\ attach E (layer_key layer) = Some segment
      /\ _width gimg = toInt (default "" (split "," layer !! 2%nat))
      /\ _height gimg = toInt (default "" (split "," layer !! 3%nat))
      /\ _depth gimg = 1 /\ _spectrum gimg = 4
      /\ _data gimg = take (Z.to_nat (_width gimg * _height gimg * 4)) segment
      /\ Z.of_nat (length (_data gimg)) = _width gimg * _height gimg * 4.
Proof.
  intros Hne Hr i gimg Hi Hfilled.
  destruct (getCroppedImages_Returns E images imageNames x y width height mode p _ _ Hne Hr)
    as [Hwf Hdef].
  destruct (getCroppedImages_run E images imageNames x y width height mode p Hne Hwf Hdef)
    as (p1 & Hrun & _).
  rewrite Hrun in Hr. injection Hr as <- _ _.
  rewrite list_lookup_fmap in Hi.
  destruct (crop_lines _ !! i) as [layer|] eqn:Hlayer; [|done].
  injection Hi as <-. rewrite Forall_forall in Hdef.
  specialize (Hdef layer (list_elem_of_lookup_2 _ _ _ Hlayer)).
  unfold layer_image, layer_defined in *.
  destruct (attach E (layer_key layer)) as [segment|] eqn:Hattach; [|done].
  exists layer, segment. split; [done|]. split; [done|].
  unfold segment_image, copy_defined, layer_size, layer_parts in *. cbn [fst snd] in *.
  set (w := toInt (default "" (split "," layer !! 2%nat))) in *.
  set (h := toInt (default "" (split "," layer !! 3%nat))) in *.
  destruct (Z.eqb_spec (w * h) 0) as [|Hnz]; [by destruct Hfilled|]. cbn [orb] in Hdef.
  apply andb_true_iff in Hdef as [Hdef Hfit]. apply Z.leb_le in Hfit.
  apply andb_true_iff in Hdef as [Hdef _]. apply andb_true_iff in Hdef as [Hw Hh].
  apply Z.ltb_lt in Hw, Hh.
  cbn [_width _height _depth _spectrum _data]. repeat split; try done.
  rewrite length_take, Nat.min_l by lia. nia.
Qed.

Lemma getCroppedImages_buffers_witness :
  exists layer segment,
    crop_lines Examples.two_lines !! 0%nat = Some layer
    /\ attach (Examples.krita Examples.two_lines Examples.two_segments 0) (layer_key layer)
       = Some segment
    /\ _width (Examples.pixel 2 2) = toInt (default "" (split "," layer !! 2%nat))
    /\ _height (Examples.pixel 2 2) = toInt (default "" (split "," layer !! 3%nat))
    /\ _depth (Examples.pixel 2 2) = 1 /\ _spectrum (Examples.pixel 2 2) = 4
    /\ _data (Examples.pixel 2 2)
       = take (Z.to_nat (_width (Examples.pixel 2 2) * _height (Examples.pixel 2 2) * 4))
              segment
    /\ Z.of_nat (length (_data (Examples.pixel 2 2)))
       = _width (Examples.pixel 2 2) * _height (Examples.pixel 2 2) * 4.
Proof.
  apply (getCroppedImages_buffers
           (Examples.krita Examples.two_lines Examples.two_segments 0) [] []
           Examples.minus_one Examples.minus_one Examples.minus_one Examples.minus_one
           1 started
           [Examples.pixel 2 2; Examples.pixel 1 1] ["layer01"; "layer02"]
           (after_send (after_send started
              (croprect_message (Examples.krita Examples.two_lines Examples.two_segments 0)
                 (croprect Examples.minus_one Examples.minus_one Examples.minus_one
                    Examples.minus_one) 1))
              "command=gmic_qt_detach")
           ltac:(vm_compute; discriminate) ltac:(vm_compute; reflexivity)
           0%nat (Examples.pixel 2 2) eq_refl ltac:(vm_compute; discriminate)).
Defined.

(** C10 fails as stated: in the line format of the spec the channel count is
    the third field, and the third field sizes the buffer.  Two responses
    that differ in that field only, 4 channels and 3 channels, give images
    of width 4 and of width 3. *)
Lemma getCroppedImages_third_field_is_width :
  let run third :=
    getCroppedImages
      (Examples.krita (Examples.five_fields third) [("key1"%string, Examples.ramp 32)] 0)
      [] [] Examples.minus_one Examples.minus_one Examples.minus_one Examples.minus_one
      1 started in
  (exists p', run "4"%string
              = Returns ([{| _width := 4; _height := 2; _depth := 1; _spectrum := 4;
                             _data := Examples.ramp 32 |}], ["layer01"]) p')
  /\ (exists p', run "3"%string
                 = Returns ([{| _width := 3; _height := 2; _depth := 1; _spectrum := 4;
                                _data := Examples.ramp 24 |}], ["layer01"]) p').
Proof. split; eexists; vm_compute; reflexivity. Qed.

End CropFacts.

(** ** [outputImages] *)

Module OutputFacts.
Import Qt Host.
Import CropFacts.

Lemma created_last samples l m dead sent_ warn n :
  created samples
    {| sharedMemorySegments := l ++ [m]; deleted := dead; sent := sent_;
       warnings := warn; uuids := n |}
  = Returns tt
      {| sharedMemorySegments :=
           l ++ [{| key := key m; isAttached := true; memory := samples |}];
         deleted := dead; sent := sent_; warnings := warn; uuids := n |}.
Proof.
  unfold created, set_registry. cbn [sharedMemorySegments deleted sent warnings uuids].
  destruct (l ++ [m]) as [|m0 ms] eqn:Hl; [by destruct l|].
  rewrite <- Hl, last_last, removelast_last, app_nil_r. done.
Qed.

(** One turn of the loop of lines 254 to 275. *)
Lemma output_layers_cons E gimg rest i imageNames message p :
  output_layers E (gimg :: rest) i imageNames message p
  = if creates E (uuids p) gimg then
      if copy_fits gimg then
        match imageNames !! i with
        | Some layerName =>
            output_layers E rest (S i) imageNames
              (message +:+ layer_line (segment_key E (uuids p)) layerName gimg)
              (stored E p gimg)
        | None => Faults IndexOutOfRange (stored E p gimg)
        end
      else Faults BufferOverrun (pending E p)
    else Returns None (log (pending E p) [no_segment]).
Proof.
  cbn [output_layers]. unfold bind at 1. unfold fresh_uuid at 1.
  unfold bind at 1. unfold append_segment at 1, set_registry.
  cbn [sharedMemorySegments deleted sent warnings uuids]. rewrite app_nil_r.
  fold (segment_key E (uuids p)). unfold creates, copy_fits.
  destruct (create_ok E _ _); cbn [negb]; [|reflexivity].
  destruct (_ || _); cbn [negb]; [reflexivity|].
  unfold bind at 1. rewrite created_last. cbn [key].
  unfold bind at 1, at_. destruct (imageNames !! i); reflexivity.
Qed.

Section Loop.
Variables (E : Krita) (imageNames : list string).

(** What the loop has done when it returns: it has only added objects to the
    registry, one per uuid it drew and at most one per image; it stopped
    early only at an image whose segment could not be created. *)
Lemma output_layers_Returns rest : forall i message p r p',
  output_layers E rest i imageNames message p = Returns r p' ->
  deleted p' = deleted p /\ sent p' = sent p
  /\ exists news,
       sharedMemorySegments p' = sharedMemorySegments p ++ news
       /\ key <$> news = segment_key E <$> seq (uuids p) (length news)
       /\ uuids p' = (uuids p + length news)%nat
       /\ (length news <= length rest)%nat
       /\ (r = None ->
           exists j g, rest !! j = Some g /\ creates E (uuids p + j) g = false
                       /\ length news = S j /\ warnings p' = warnings p ++ [no_segment])
       /\ (is_Some r -> length news = length rest /\ warnings p' = warnings p).
Proof.
  induction rest as [|gimg rest IH]; intros i message p r p' Hr.
  - injection Hr as <- <-. split; [done|]. split; [done|]. exists [].
    rewrite app_nil_r, Nat.add_0_r. repeat split; try done.
  - rewrite output_layers_cons in Hr.
    destruct (creates E (uuids p) gimg) eqn:Hcreate.
    + destruct (copy_fits gimg); [|done].
      destruct (imageNames !! i) as [layerName|]; [|done].
      apply IH in Hr as (Hdel & Hsent & news & Hreg & Hkeys & Huuids & Hlen & Hnone & Hsome).
      cbn [stored deleted sent sharedMemorySegments uuids warnings] in *.
      split; [done|]. split; [done|].
      exists (filled_segment E (uuids p) gimg :: news).
      split; [by rewrite Hreg, <- app_assoc|].
      split; [cbn [length seq fmap list_fmap]; by rewrite Hkeys|].
      split; [cbn [length]; lia|]. split; [cbn [length]; lia|]. split.
      * intros Hn. destruct (Hnone Hn) as (j & g & Hj & Hg & Hl & Hw).
        exists (S j), g. cbn [length].
        replace (uuids p + S j)%nat with (S (uuids p) + j)%nat by lia. by rewrite Hl.
      * intros Hs. destruct (Hsome Hs) as [Hl Hw]. cbn [length]. by rewrite Hl.
    + injection Hr as <- <-. cbn [log pending deleted sent sharedMemorySegments uuids warnings].
      split; [done|]. split; [done|]. exists [fresh_segment E (uuids p)].
      cbn [length seq fmap list_fmap]. repeat split; try done; try lia.
      all: try (intros [? ?]; done).
      intros _. exists 0%nat, gimg. by rewrite Nat.add_0_r.
Qed.

(** The loop runs to its end when every segment is created, every copy fits
    and every image has a name. *)
Lemma output_layers_all rest : forall i message p,
  (forall j g, rest !! j = Some g ->
     creates E (uuids p + j) g = true /\ copy_fits g = true
     /\ is_Some (imageNames !! (i + j)%nat)) ->
  exists message' p',
    output_layers E rest i imageNames message p = Returns (Some message') p'.
Proof.
  induction rest as [|gimg rest IH]; intros i message p Hall; [by eexists _, _|].
  rewrite output_layers_cons.
  destruct (Hall 0%nat gimg eq_refl) as (Hc & Hf & [layerName Hn]).
  rewrite Nat.add_0_r in Hc, Hn. rewrite Hc, Hf, Hn.
  apply IH. intros j g Hj. cbn [stored uuids].
  replace (S (uuids p) + j)%nat with (uuids p + S j)%nat by lia.
  replace (S i + j)%nat with (i + S j)%nat by lia. by apply Hall.
Qed.

(** The loop stops at the first image whose segment cannot be created:
    nothing is sent, and the registry has grown by the objects of the images
    up to that one. *)
Lemma output_layers_refused rest : forall k i message p gimg,
  rest !! k = Some gimg ->
  creates E (uuids p + k) gimg = false ->
  (forall j g, (j < k)%nat -> rest !! j = Some g ->
     creates E (uuids p + j) g = true /\ copy_fits g = true
     /\ is_Some (imageNames !! (i + j)%nat)) ->
  exists p',
    output_layers E rest i imageNames message p = Returns None p'
    /\ sent p' = sent p /\ deleted p' = deleted p
    /\ length (sharedMemorySegments p') = (length (sharedMemorySegments p) + S k)%nat
    /\ uuids p' = (uuids p + S k)%nat
    /\ warnings p' = warnings p ++ [no_segment].
Proof.
  induction rest as [|g0 rest IH]; intros k i message p gimg Hk Hfail Hbefore; [done|].
  rewrite output_layers_cons. destruct k as [|k].
  - injection Hk as ->. rewrite Nat.add_0_r in Hfail. rewrite Hfail.
    eexists. split; [reflexivity|].
    cbn [log pending deleted sent sharedMemorySegments uuids warnings].
    rewrite length_app. cbn [length]. repeat split; try done; lia.
  - destruct (Hbefore 0%nat g0 ltac:(lia) eq_refl) as (Hc & Hf & [layerName Hn]).
    rewrite Nat.add_0_r in Hc, Hn. rewrite Hc, Hf, Hn.
    destruct (IH k (S i) (message +:+ layer_line (segment_key E (uuids p)) layerName g0)
                (stored E p g0) gimg Hk) as (p' & Hrun & Hsent & Hdel & Hlen & Hu & Hw).
    + cbn [stored uuids]. by replace (S (uuids p) + k)%nat with (uuids p + S k)%nat by lia.
    + intros j g Hj Hg. cbn [stored uuids].
      replace (S (uuids p) + j)%nat with (uuids p + S j)%nat by lia.
      replace (S i + j)%nat with (i + S j)%nat by lia. apply Hbefore; [lia|done].
    + exists p'. split; [done|].
      cbn [stored deleted sent sharedMemorySegments uuids warnings] in *.
      rewrite length_app in Hlen. cbn [length] in Hlen. repeat split; try done; lia.
Qed.

End Loop.

Lemma outputImages_unfold E images imageNames mode p :
  outputImages E images imageNames mode p
  = match output_layers E images 0 imageNames (output_message mode) (released E p) with
    | Returns (Some message) p' => Returns tt (after_send p' message)
    | Returns None p' => Returns tt p'
    | Faults f p' => Faults f p'
    end.
Proof.
  unfold outputImages, toUtf8, bind at 1, release, set_registry. fold (released E p).
  fold (output_message mode). unfold bind at 1.
  destruct (output_layers _ _ _ _ _ _) as [[message|] p'|f p']; reflexivity.
Qed.

(** C7, as the code has it: after two calls in a row, every object the
    registry held after the first call has had [detach] called on it when it
    was attached and has been deleted, and the registry holds the objects of
    the second call only, made from the uuids drawn during that call.  There
    are never more of them than images in the second batch, and exactly as
    many when every segment of the second batch could be created. *)
Theorem outputImages_twice
    (E : Krita) (images1 images2 : list gmic_image) (names1 names2 : list string)
    (mode1 mode2 : Z) (p p1 p2 : Process) :
  outputImages E images1 names1 mode1 p = Returns tt p1 ->
  outputImages E images2 names2 mode2 p1 = Returns tt p2 ->
  key <$> sharedMemorySegments p1
  = segment_key E <$> seq (uuids p) (length (sharedMemorySegments p1))
  /\ deleted p2 = deleted p1 ++ (detach E <$> sharedMemorySegments p1)
  /\ key <$> sharedMemorySegments p2
     = segment_key E <$> seq (uuids p1) (length (sharedMemorySegments p2))
  /\ (length (sharedMemorySegments p2) <= length images2)%nat
  /\ ((forall j g, images2 !! j = Some g -> creates E (uuids p1 + j) g = true) ->
      length (sharedMemorySegments p2) = length images2).
Proof.
  intros Hfirst Hsecond. split.
  { rewrite outputImages_unfold in Hfirst.
    destruct (output_layers E images1 0 names1 (output_message mode1) (released E p))
      as [r p'|f p'] eqn:Hloop; [|done].
    apply output_layers_Returns in Hloop as (_ & _ & news & Hreg & Hkeys & _).
    cbn [released sharedMemorySegments uuids app] in *.
    destruct r as [message|]; injection Hfirst as <-;
      cbn [after_send sharedMemorySegments]; by rewrite Hreg. }
  rewrite outputImages_unfold in Hsecond.
  destruct (output_layers E images2 0 names2 (output_message mode2) (released E p1))
    as [r p'|f p'] eqn:Hloop; [|done].
  apply output_layers_Returns in Hloop
    as (Hdel & _ & news & Hreg & Hkeys & _ & Hlen & Hnone & Hsome).
  cbn [released deleted sharedMemorySegments uuids app] in *.
  assert (Hp2 : sharedMemorySegments p2 = news /\ deleted p2 = deleted p').
  { destruct r as [message|]; injection Hsecond as <-; by rewrite <- Hreg. }
  destruct Hp2 as [-> ->]. split; [done|]. split; [done|]. split; [done|].
  intros Hall. destruct r as [message|]; [by apply Hsome|].
  destruct (Hnone eq_refl) as (j & g & Hj & Hg & _). by rewrite (Hall j g Hj) in Hg.
Qed.

Lemma outputImages_twice_witness :
  let p1 := final (outputImages Examples.small_host
                     [Examples.pixel 1 1; Examples.pixel 2 1] ["a"; "b"] 0 started) in
  let p2 := final (outputImages Examples.small_host [Examples.pixel 2 2] ["c"] 0 p1) in
  key <$> sharedMemorySegments p1
  = segment_key Examples.small_host <$> seq (uuids started) (length (sharedMemorySegments p1))
  /\ deleted p2 = deleted p1 ++ (detach Examples.small_host <$> sharedMemorySegments p1)
  /\ key <$> sharedMemorySegments p2
     = segment_key Examples.small_host <$> seq (uuids p1) (length (sharedMemorySegments p2))
  /\ (length (sharedMemorySegments p2) <= length [Examples.pixel 2 2])%nat
  /\ ((forall j g, [Examples.pixel 2 2] !! j = Some g ->
         creates Examples.small_host (uuids p1 + j) g = true) ->
      length (sharedMemorySegments p2) = length [Examples.pixel 2 2]).
Proof.
  intros p1 p2.
  apply (outputImages_twice Examples.small_host
           [Examples.pixel 1 1; Examples.pixel 2 1] [Examples.pixel 2 2]
           ["a"; "b"] ["c"] 0 0 started p1 p2).
  - vm_compute. reflexivity.
  - vm_compute. reflexivity.
Defined.

(** C7 fails as stated: when the segment of the first image of the second
    batch cannot be created, the registry ends with one object for a batch
    of two images. *)
Lemma outputImages_second_batch_cut_short :
  let p1 := final (outputImages Examples.small_host [Examples.pixel 1 1] ["a"] 0 started) in
  let p2 := final (outputImages Examples.small_host
                     [Examples.pixel 4 4; Examples.pixel 1 1] ["b"; "c"] 0 p1) in
  outputImages Examples.small_host [Examples.pixel 1 1] ["a"] 0 started = Returns tt p1
  /\ outputImages Examples.small_host
       [Examples.pixel 4 4; Examples.pixel 1 1] ["b"; "c"] 0 p1 = Returns tt p2
  /\ length (sharedMemorySegments p2) = 1%nat
  /\ length [Examples.pixel 4 4; Examples.pixel 1 1] = 2%nat.
Proof. vm_compute. repeat split. Qed.

(** C8: when the segment of image [k] cannot be created, the images before
    it having been stored, the call returns at once: the registry holds the
    [k + 1] objects made so far, [k + 1] uuids have been drawn, and no
    message has been sent. *)
Theorem outputImages_create_failure
    (E : Krita) (images : list gmic_image) (imageNames : list string) (mode : Z)
    (p : Process) (k : nat) (gimg : gmic_image) :
  images !! k = Some gimg ->
  creates E (uuids p + k) gimg = false ->
  (forall j g, (j < k)%nat -> images !! j = Some g ->
     creates E (uuids p + j) g = true /\ copy_fits g = true /\ is_Some (imageNames !! j)) ->
  exists p',
    outputImages E images imageNames mode p = Returns tt p'
    /\ sent p' = sent p
    /\ length (sharedMemorySegments p') = S k
    /\ uuids p' = (uuids p + S k)%nat
    /\ warnings p' = warnings p ++ [no_segment].
Proof.
  intros Hk Hfail Hbefore. rewrite outputImages_unfold.
  destruct (output_layers_refused E imageNames images k 0 (output_message mode)
              (released E p) gimg Hk Hfail Hbefore)
    as (p' & -> & Hsent & _ & Hlen & Hu & Hw).
  exists p'. by cbn [released sent sharedMemorySegments uuids warnings length] in *.
Qed.

Lemma outputImages_create_failure_witness :
  exists p',
    outputImages Examples.small_host
      [Examples.pixel 1 1; Examples.pixel 4 4; Examples.pixel 1 1] ["a"; "b"; "c"] 0 started
    = Returns tt p'
    /\ sent p' = sent started
    /\ length (sharedMemorySegments p') = 2%nat
    /\ uuids p' = (uuids started + 2)%nat
    /\ warnings p' = warnings started ++ [no_segment].
Proof.
  apply (outputImages_create_failure Examples.small_host
           [Examples.pixel 1 1; Examples.pixel 4 4; Examples.pixel 1 1] ["a"; "b"; "c"] 0
           started 1 (Examples.pixel 4 4) eq_refl).
  - vm_compute. reflexivity.
  - intros j g Hj Hg. destruct j as [|j]; [|lia]. injection Hg as <-.
    split; [vm_compute; reflexivity|]. split; [vm_compute; reflexivity|]. by eexists.
Defined.

End OutputFacts.

(** ** More on the exchange over the socket *)

Module ExchangeFacts.
Import Qt Socket.

Lemma chars_of_chars l : chars (of_chars l) = l.
Proof. apply String.list_ascii_of_string_of_list_ascii. Qed.

Lemma of_chars_chars s : of_chars (chars s) = s.
Proof. apply String.string_of_list_ascii_of_string. Qed.

Lemma chars_append a b : chars (a +:+ b) = chars a ++ chars b.
Proof.
  induction a as [|c a IH]; [done|].
  change (chars (String c a +:+ b)) with (c :: chars (a +:+ b)). by rewrite IH.
Qed.

Lemma length_chars s : length (chars s) = String.length s.
Proof.
  induction s as [|c s IH]; [done|].
  change (chars (String c s)) with (c :: chars s). cbn [length String.length]. by rewrite IH.
Qed.

Lemma byte_value_byte_char b : 0 <= b < 256 -> byte_value (byte_char b) = b.
Proof.
  intros Hb. unfold byte_value, byte_char.
  rewrite nat_ascii_embedding by lia. lia.
Qed.

(** The four bytes [QDataStream] writes for a length are read back as that
    length. *)
Lemma read_quint32_be32 n rest :
  0 <= n < 2 ^ 32 -> read_quint32 (chars (be32 n) ++ rest) = n.
Proof.
  intros Hn. unfold be32, read_quint32. rewrite chars_of_chars.
  cbn [fmap list_fmap app take fold_left].
  change 255 with (Z.ones 8). rewrite !Z.land_ones, !Z.shiftr_div_pow2 by lia.
  rewrite !byte_value_byte_char by (apply Z.mod_pos_bound; lia).
  change (2 ^ 8) with 256. change (2 ^ 16) with (256 * 256).
  change (2 ^ 24) with (256 * 256 * 256).
  rewrite <- !Z.div_div by lia.
  assert (n / 256 / 256 / 256 < 256) by (rewrite !Z.div_div by lia; apply Z.div_lt_upper_bound; lia).
  assert (0 <= n / 256 / 256 / 256) by (repeat apply Z.div_pos; lia).
  rewrite (Z.mod_small (n / 256 / 256 / 256)) by lia.
  pose proof (Z.div_mod n 256 ltac:(lia)).
  pose proof (Z.div_mod (n / 256) 256 ltac:(lia)).
  pose proof (Z.div_mod (n / 256 / 256) 256 ltac:(lia)).
  rewrite take_0. cbn [fold_left]. lia.
Qed.

Lemma length_be32 n : length (chars (be32 n)) = 4%nat.
Proof. unfold be32. by rewrite chars_of_chars. Qed.


Lemma byte_value_range c : 0 <= byte_value c < 256.
Proof. unfold byte_value. pose proof (nat_ascii_bounded c). lia. Qed.

Lemma read_quint32_range l : 0 <= read_quint32 l < 2 ^ 32.
Proof.
  unfold read_quint32.
  destruct l as [|a [|b [|c [|d l]]]]; cbn [take fold_left]; rewrite ?take_0; cbn [fold_left];
    repeat match goal with
           | |- context [byte_value ?x] =>
               pose proof (byte_value_range x); generalize dependent (byte_value x); intros
           end; lia.
Qed.

Lemma to_int_small n : 0 <= n < 2 ^ 31 -> to_int n = n.
Proof.
  intros Hn. unfold to_int. rewrite Z.mod_small by lia.
  destruct (Z.ltb_spec n (2 ^ 31)); lia.
Qed.

Lemma length_resized p remaining stored :
  String.length (resized p remaining stored) = Z.to_nat (Z.max 0 (to_int remaining)).
Proof.
  unfold resized. rewrite <- length_chars, chars_of_chars, length_take, length_app,
    length_replicate. lia.
Qed.



(** More iterations never change what the first loop has found. *)
Lemma await_length_more fuel : forall p buffer k w fuel',
  await_length fuel p buffer k = Some w -> (fuel <= fuel')%nat ->
  await_length fuel' p buffer k = Some w.
Proof.
  induction fuel as [|fuel IH]; intros p buffer k w fuel' Hw Hle; [done|].
  destruct fuel' as [|fuel']; [lia|]. cbn [await_length] in *.
  destruct (_ <? 4); [|done]. destruct (negb _); [done|].
  apply IH; [done|lia].
Qed.

(** The second loop ends: every turn that goes on has taken at least one
    byte off what remains, except a first turn on an empty buffer. *)
Lemma read_answer_returns fuel : forall p remaining buffer k stored,
  0 <= remaining < 2 ^ 32 ->
  (Z.to_nat remaining + (if buffer is [] then 1 else 0) < fuel)%nat ->
  exists r, read_answer fuel p remaining buffer k stored = Some r.
Proof.
  induction fuel as [|fuel IH]; intros p remaining buffer k stored Hrange Hfuel; [lia|].
  cbn [read_answer]. unfold readRawData.
  destruct (readFails p k || (to_int remaining <? 0)) eqn:Hfail.
  { replace ((remaining - -1) mod 2 ^ 32 =? 0) with ((remaining + 1) mod 2 ^ 32 =? 0)
      by (f_equal; f_equal; lia).
    rewrite andb_false_r. eauto. }
  apply orb_false_iff in Hfail as [_ Hlen]. apply Z.ltb_ge in Hlen.
  assert (Hsmall : remaining < 2 ^ 31).
  { unfold to_int in Hlen. rewrite Z.mod_small in Hlen by lia.
    destruct (Z.ltb_spec remaining (2 ^ 31)); lia. }
  rewrite to_int_small in * by lia.
  set (got := Z.min remaining (Z.of_nat (length buffer))).
  assert (Hgot : 0 <= got <= remaining) by lia.
  rewrite (Z.mod_small (remaining - got)) by lia.
  destruct (negb (remaining - got =? 0) && (0 <=? got)) eqn:Hgo; [|eauto].
  destruct (negb (isEmpty (arriving p k))) eqn:Hnew; [|eauto].
  apply andb_true_iff in Hgo as [Hrest _]. apply negb_true_iff, Z.eqb_neq in Hrest.
  apply negb_true_iff in Hnew.
  apply IH; [lia|].
  assert (Hnonempty : chars (arriving p k) <> []) by (by destruct (arriving p k)).
  destruct (drop _ buffer ++ chars (arriving p k)) eqn:Hb.
  { apply app_eq_nil in Hb as [_ Hb]. done. }
  destruct buffer as [|c buffer]; [cbn [length] in *; lia|].
  subst got. cbn [length] in *. lia.
Qed.

(** X2: the call returns as soon as its first loop ends: once the four bytes
    of the length have arrived, or the socket is found invalid, no peer can
    keep [sendMessageSynchronously] waiting any longer, because every turn
    of the second loop either takes bytes off the declared length or ends
    the loop. *)
Theorem sendMessageSynchronously_returns_after_length
    (p : Peer) (ba : string) (fuel : nat) (w : prefix_wait) :
  await_length fuel p [] 0 = Some w ->
  exists fuel' ex, sendMessageSynchronously fuel' p ba = Some ex.
Proof.
  intros Hw. unfold sendMessageSynchronously.
  destruct (waitForConnected p); cbn [negb]; [|by exists 0%nat; eauto].
  destruct w as [buffer k|k].
  - pose proof (read_quint32_range buffer) as Hrange.
    set (fuel' := (fuel + Z.to_nat (read_quint32 buffer) + 2)%nat).
    exists fuel'. rewrite (await_length_more fuel p [] 0%nat _ fuel' Hw) by lia.
    destruct (read_answer_returns fuel' p (read_quint32 buffer) (drop 4 buffer) k [] Hrange)
      as [[[got stored] k'] ->].
    { destruct (drop 4 buffer); lia. }
    destruct (got <? 0); eauto.
  - exists fuel. rewrite Hw. eauto.
Qed.

Lemma sendMessageSynchronously_returns_after_length_witness :
  exists fuel' ex,
    sendMessageSynchronously fuel' (scripted [be32 5 +:+ "12"; "3"; ""] None) "ping" = Some ex.
Proof.
  apply (sendMessageSynchronously_returns_after_length
           (scripted [be32 5 +:+ "12"; "3"; ""] None) "ping" 2
           (Ready (chars (be32 5 +:+ "12")) 1)).
  reflexivity.
Defined.

(** What the first loop finds when the first wait brings four bytes or more. *)
Lemma await_length_first_chunk p fuel :
  isValid p 0 = true ->
  (4 <= String.length (arriving p 0))%nat ->
  await_length (S (S fuel)) p [] 0 = Some (Ready (chars (arriving p 0)) 1).
Proof.
  intros Hvalid Hlen. cbn [await_length length]. change (Z.of_nat 0 <? 4) with true.
  cbv iota. rewrite Hvalid. cbn [negb app]. rewrite length_chars.
  destruct (Z.ltb_spec (Z.of_nat (String.length (arriving p 0))) 4); [lia|done].
Qed.

Lemma length_append a b : String.length (a +:+ b) = (String.length a + String.length b)%nat.
Proof. by rewrite <- !length_chars, chars_append, length_app. Qed.

Lemma of_chars_app a b : of_chars (a ++ b) = of_chars a +:+ of_chars b.
Proof.
  induction a as [|c a IH]; [done|].
  change (of_chars ((c :: a) ++ b)) with (String c (of_chars (a ++ b))). by rewrite IH.
Qed.

Lemma append_empty_r s : s +:+ "" = s.
Proof.
  induction s as [|c s IH]; [done|].
  change (String c s +:+ "") with (String c (s +:+ "")). by rewrite IH.
Qed.

(** The buffer after [resize] and the writes, when no more bytes were stored
    than the length declared. *)
Lemma resized_stored p n stored :
  0 <= n < 2 ^ 31 -> (length stored <= Z.to_nat n)%nat ->
  resized p n stored
  = of_chars stored +:+ of_chars (replicate (Z.to_nat n - length stored) (uninitialized p)).
Proof.
  intros Hn Hlen. unfold resized. rewrite to_int_small, Z.max_r by lia.
  rewrite take_ge by (rewrite length_app, length_replicate; lia).
  apply of_chars_app.
Qed.

(** X3: a frame that arrives whole during the first wait, its payload shorter
    than 2^31 bytes, is returned as it was sent: the answer is the payload,
    nothing is logged, and the acknowledgement is written after one wait. *)
Theorem sendMessageSynchronously_whole_frame
    (p : Peer) (ba payload : string) (fuel : nat) :
  waitForConnected p = true ->
  isValid p 0 = true ->
  readFails p 1 = false ->
  arriving p 0 = be32 (Z.of_nat (String.length payload)) +:+ payload ->
  Z.of_nat (String.length payload) < 2 ^ 31 ->
  (2 <= fuel)%nat ->
  sendMessageSynchronously fuel p ba
  = Some {| answer := payload; warnings := []; written := [writeBytes ba; ack];
            waits := 1;
            waited_ms := connect_ms + written_ms + poll_ms + ack_ms |}.
Proof.
  intros Hconn Hvalid Hread Harrive Hlen Hfuel.
  assert (H32 : 2 ^ 31 < 2 ^ 32) by reflexivity.
  destruct fuel as [|[|fuel]]; [lia|lia|].
  unfold sendMessageSynchronously. rewrite Hconn. cbn [negb].
  rewrite await_length_first_chunk
    by (done || (rewrite Harrive, length_append, <- length_chars, length_be32; lia)).
  rewrite Harrive, chars_append.
  rewrite read_quint32_be32 by lia.
  rewrite drop_app_length' by (by rewrite length_be32).
  cbn [read_answer]. unfold readRawData. rewrite Hread, to_int_small by lia.
  destruct (Z.ltb_spec (Z.of_nat (String.length payload)) 0); [lia|]. cbn [orb].
  rewrite length_chars, Z.min_id, Z.sub_diag.
  rewrite Z.mod_0_l by lia. cbn [Z.eqb negb andb app].
  destruct (Z.ltb_spec (Z.of_nat (String.length payload)) 0); [lia|].
  rewrite Nat2Z.id, take_ge by (by rewrite length_chars).
  rewrite resized_stored by (rewrite ?length_chars; lia).
  rewrite length_chars, Nat2Z.id, Nat.sub_diag, of_chars_chars, append_empty_r.
  f_equal.
Qed.

Lemma sendMessageSynchronously_whole_frame_witness :
  sendMessageSynchronously 2 (scripted [be32 7 +:+ "640,480"] None)
    "command=gmic_qt_get_image_size"
  = Some {| answer := "640,480"; warnings := [];
            written := [writeBytes "command=gmic_qt_get_image_size"; ack];
            waits := 1; waited_ms := connect_ms + written_ms + poll_ms + ack_ms |}.
Proof.
  apply (sendMessageSynchronously_whole_frame
           (scripted [be32 7 +:+ "640,480"] None) "command=gmic_qt_get_image_size"
           "640,480" 2 eq_refl eq_refl eq_refl eq_refl).
  - vm_compute. reflexivity.
  - lia.
Defined.

(** X4: when fewer bytes than declared have arrived with the length and the
    next wait of 2000 ms times out, the call still acknowledges and logs
    nothing; the answer has the declared length, begins with the bytes that
    arrived, and ends with bytes that were never written. *)
Theorem sendMessageSynchronously_short_answer
    (p : Peer) (ba part : string) (declared : Z) (fuel : nat) :
  waitForConnected p = true ->
  isValid p 0 = true ->
  readFails p 1 = false ->
  arriving p 0 = be32 declared +:+ part ->
  arriving p 1 = EmptyString ->
  Z.of_nat (String.length part) < declared < 2 ^ 31 ->
  (2 <= fuel)%nat ->
  sendMessageSynchronously fuel p ba
  = Some {| answer :=
              part +:+ of_chars (replicate (Z.to_nat declared - String.length part)
                                           (uninitialized p));
            warnings := []; written := [writeBytes ba; ack]; waits := 2;
            waited_ms := connect_ms + written_ms + poll_ms + read_ms + ack_ms |}.
Proof.
  intros Hconn Hvalid Hread Harrive Hsilent Hlen Hfuel.
  assert (H32 : 2 ^ 31 < 2 ^ 32) by reflexivity.
  destruct fuel as [|[|fuel]]; [lia|lia|].
  unfold sendMessageSynchronously. rewrite Hconn. cbn [negb].
  rewrite await_length_first_chunk
    by (done || (rewrite Harrive, length_append, <- length_chars, length_be32; lia)).
  rewrite Harrive, chars_append.
  rewrite read_quint32_be32 by lia.
  rewrite drop_app_length' by (by rewrite length_be32).
  cbn [read_answer]. unfold readRawData. rewrite Hread, to_int_small by lia.
  destruct (Z.ltb_spec declared 0); [lia|]. cbn [orb].
  rewrite length_chars, Z.min_r by lia.
  rewrite (Z.mod_small (declared - _)) by lia.
  destruct (Z.eqb_spec (declared - Z.of_nat (String.length part)) 0); [lia|].
  destruct (Z.leb_spec 0 (Z.of_nat (String.length part))); [|lia].
  rewrite Hsilent. cbn [negb andb isEmpty app].
  destruct (Z.ltb_spec (Z.of_nat (String.length part)) 0); [lia|].
  rewrite take_ge by (rewrite length_chars; lia).
  rewrite resized_stored by (rewrite ?length_chars; lia).
  rewrite length_chars, of_chars_chars.
  f_equal.
Qed.

Lemma sendMessageSynchronously_short_answer_witness :
  sendMessageSynchronously 2 (scripted [be32 7 +:+ "640"] None) "ping"
  = Some {| answer :=
              "640" +:+ of_chars (replicate (Z.to_nat 7 - String.length "640") Ascii.zero);
            warnings := []; written := [writeBytes "ping"; ack]; waits := 2;
            waited_ms := connect_ms + written_ms + poll_ms + read_ms + ack_ms |}.
Proof.
  apply (sendMessageSynchronously_short_answer
           (scripted [be32 7 +:+ "640"] None) "ping" "640" 7 2
           eq_refl eq_refl eq_refl eq_refl eq_refl).
  - vm_compute. split; reflexivity.
  - lia.
Defined.

(** X5: past the length prefix, the answer a call returns always has the
    length the prefix declared (none when the declared length does not fit
    an [int]), whether the payload arrived in full, in part, or not at all. *)
Theorem sendMessageSynchronously_answer_length
    (fuel : nat) (p : Peer) (ba : string) (ex : Exchange) (buffer : list ascii) (k : nat) :
  waitForConnected p = true ->
  await_length fuel p [] 0 = Some (Ready buffer k) ->
  sendMessageSynchronously fuel p ba = Some ex ->
  String.length (answer ex) = Z.to_nat (Z.max 0 (to_int (read_quint32 buffer))).
Proof.
  intros Hconn Hready. unfold sendMessageSynchronously. rewrite Hconn, Hready. cbn [negb].
  destruct (read_answer _ _ _ _ _ _) as [[[got stored] k']|]; [|done].
  destruct (got <? 0); intros [= <-]; apply length_resized.
Qed.

Lemma sendMessageSynchronously_answer_length_witness :
  String.length
    ("640" +:+ of_chars (replicate (Z.to_nat 7 - String.length "640") Ascii.zero))
  = Z.to_nat (Z.max 0 (to_int (read_quint32 (chars (be32 7 +:+ "640"))))).
Proof.
  apply (sendMessageSynchronously_answer_length 2 (scripted [be32 7 +:+ "640"] None) "ping"
           {| answer :=
                "640" +:+ of_chars (replicate (Z.to_nat 7 - String.length "640") Ascii.zero);
              warnings := []; written := [writeBytes "ping"; ack]; waits := 2;
              waited_ms := connect_ms + written_ms + poll_ms + read_ms + ack_ms |}
           (chars (be32 7 +:+ "640")) 1 eq_refl eq_refl).
  vm_compute. reflexivity.
Defined.

End ExchangeFacts.

(** ** Round trips of the text encodings *)

Module TextFacts.
Import Qt Wire.
Import ExchangeFacts.










(** *** Decimal numbers *)

Lemma digits_value_cons acc c l k :
  digitValue c = Some k -> digits_value acc (c :: l) = digits_value (10 * acc + k) l.
Proof. intros Hc. cbn [digits_value]. by rewrite Hc. Qed.

Ltac uint_cases d IH :=
  induction d as [|d IH|d IH|d IH|d IH|d IH|d IH|d IH|d IH|d IH|d IH];
  cbn [NilEmpty.string_of_uint];
  try match goal with
      | |- context [chars (String ?c ?s)] => change (chars (String c s)) with (c :: chars s)
      end.

Ltac digit_value :=
  try match goal with
      | |- context [Z.of_nat (nat_of_ascii ?c) - 48] =>
          let v := eval vm_compute in (Z.of_nat (nat_of_ascii c) - 48) in
          change (Z.of_nat (nat_of_ascii c) - 48) with v
      end.

Lemma uint_digits d : Forall (fun c => is_digit c = true) (chars (NilEmpty.string_of_uint d)).
Proof. uint_cases d IH; [constructor | constructor; [reflexivity | exact IH] ..]. Qed.

Lemma digits_value_uint_acc d : forall p,
  digits_value (Z.pos p) (chars (NilEmpty.string_of_uint d)) = Some (Z.pos (Pos.of_uint_acc d p)).
Proof.
  uint_cases d IH; intros p; [done | ..];
    (erewrite digits_value_cons by reflexivity); cbn [Pos.of_uint_acc]; rewrite <- IH;
    f_equal; digit_value; lia.
Qed.

Lemma digits_value_uint d :
  digits_value 0 (chars (NilEmpty.string_of_uint d)) = Some (Z.of_N (Pos.of_uint d)).
Proof.
  uint_cases d IH; [done | ..];
    (erewrite digits_value_cons by reflexivity); digit_value; cbn [Pos.of_uint Z.of_N];
    [exact IH | apply digits_value_uint_acc ..].
Qed.

Lemma string_of_uint_pos p :
  NilZero.string_of_uint (Pos.to_uint p) = NilEmpty.string_of_uint (Pos.to_uint p)
  /\ chars (NilEmpty.string_of_uint (Pos.to_uint p)) <> [].
Proof.
  pose proof (DecimalPos.Unsigned.to_uint_nonnil p) as Hnil.
  destruct (Pos.to_uint p); done.
Qed.

(** The characters of a printed number: digits, after a minus sign when the
    number is negative; read as a run of digits they give its absolute
    value. *)
Lemma number_chars z :
  exists digits,
    chars (number z) = (if z <? 0 then ["-"%char] else []) ++ digits
    /\ digits <> []
    /\ Forall (fun c => is_digit c = true) digits
    /\ digits_value 0 digits = Some (Z.abs z).
Proof.
  unfold number. destruct z as [|p|p]; cbn [Z.to_int NilZero.string_of_int Z.ltb Z.compare app].
  - exists ["0"%char]. repeat split; try done. by repeat constructor.
  - destruct (string_of_uint_pos p) as [-> Hne].
    exists (chars (NilEmpty.string_of_uint (Pos.to_uint p))).
    repeat split; [done | apply uint_digits |].
    by rewrite digits_value_uint, DecimalPos.Unsigned.of_to.
  - destruct (string_of_uint_pos p) as [-> Hne].
    exists (chars (NilEmpty.string_of_uint (Pos.to_uint p))).
    repeat split; [done | apply uint_digits |].
    by rewrite digits_value_uint, DecimalPos.Unsigned.of_to.
Qed.

Lemma is_digit_plain c :
  is_digit c = true ->
  isSpace c = false /\ c <> "-"%char /\ c <> "+"%char /\ c <> ","%char /\ c <> "010"%char
  /\ c <> "%"%char.
Proof.
  destruct c as [[] [] [] [] [] [] [] []]; intros Hd; try discriminate Hd;
    repeat split; (reflexivity || discriminate).
Qed.

Lemma drop_spaces_plain c l : isSpace c = false -> drop_spaces (c :: l) = c :: l.
Proof. intros Hc. cbn [drop_spaces]. by rewrite Hc. Qed.

(** Text that neither begins nor ends with white space is left as it is. *)
Lemma trimmed_plain l :
  (forall c, head l = Some c -> isSpace c = false) ->
  (forall c, last l = Some c -> isSpace c = false) ->
  trimmed l = l.
Proof.
  intros Hhead Hlast. unfold trimmed.
  destruct l as [|c l]; [done|]. rewrite drop_spaces_plain by (by apply Hhead).
  destruct (rev (c :: l)) as [|c' l'] eqn:Hrev.
  { apply (f_equal (@length _)) in Hrev. rewrite length_rev in Hrev. done. }
  rewrite drop_spaces_plain.
  - by rewrite <- Hrev, rev_involutive.
  - apply Hlast. rewrite <- (rev_involutive (c :: l)), Hrev.
    change (rev (c' :: l')) with (rev l' ++ [c']). apply last_snoc.
Qed.

(** A number that fits an [int] is read back from its decimal text. *)
Lemma toInt_number z : in_int z = true -> toInt (number z) = z.
Proof.
  intros Hz. destruct (number_chars z) as (digits & Hchars & Hne & Hdigits & Hvalue).
  unfold toInt. rewrite Hchars.
  assert (Hplain : forall c, c ∈ digits -> isSpace c = false).
  { intros c Hc. rewrite Forall_forall in Hdigits. by apply is_digit_plain, Hdigits. }
  rewrite trimmed_plain.
  - destruct digits as [|d digits]; [done|].
    assert (Hd : is_digit d = true) by (rewrite Forall_forall in Hdigits; apply Hdigits; left).
    apply is_digit_plain in Hd as (_ & Hminus & Hplus & _).
    destruct (Z.ltb_spec z 0); cbn [app parse_decimal].
    + change (Ascii.eqb "-" "-") with true. cbv iota. rewrite Hvalue. cbn [fmap option_fmap option_map].
      replace (- Z.abs z) with z by lia. by rewrite Hz.
    + apply Ascii.eqb_neq in Hminus, Hplus. rewrite Hminus, Hplus, Hvalue.
      replace (Z.abs z) with z by lia. by rewrite Hz.
  - intros c Hc. destruct (z <? 0); cbn [app head] in Hc.
    + by injection Hc as <-.
    + destruct digits as [|d digits]; [done|]. injection Hc as <-. apply Hplain. left.
  - intros c Hc. rewrite last_app in Hc.
    destruct (last digits) as [c'|] eqn:Hl.
    + injection Hc as <-. apply Hplain. by apply last_Some_elem_of.
    + apply last_None in Hl. done.
Qed.


(** *** Splitting *)

Lemma free_of_spec c s : free_of c s = true -> c ∉ chars s.
Proof.
  unfold free_of. rewrite forallb_forall. intros Hall Hin.
  apply list_elem_of_In, Hall in Hin. by rewrite Ascii.eqb_refl in Hin.
Qed.

Lemma split_keep_field sep a b :
  sep ∉ chars a -> split_keep sep (a +:+ String sep b) = a :: split_keep sep b.
Proof.
  induction a as [|c a IH]; intros Hsep.
  - change ("" +:+ String sep b) with (String sep b). cbn [split_keep].
    by rewrite Ascii.eqb_refl.
  - change (String c a +:+ String sep b) with (String c (a +:+ String sep b)).
    cbn [split_keep]. rewrite QtFacts.chars_String in Hsep.
    destruct (Ascii.eqb_spec c sep) as [->|_]; [exfalso; apply Hsep; left|].
    rewrite IH; [done|]. intros Hin. apply Hsep. by right.
Qed.

Lemma split_keep_last sep a : sep ∉ chars a -> split_keep sep a = [a].
Proof.
  induction a as [|c a IH]; intros Hsep; [done|].
  cbn [split_keep]. rewrite QtFacts.chars_String in Hsep.
  destruct (Ascii.eqb_spec c sep) as [->|_]; [exfalso; apply Hsep; left|].
  rewrite IH; [done|]. intros Hin. apply Hsep. by right.
Qed.

(** A field in front of a separator is the first piece, unless it is
    empty. *)
Lemma split_field sep a b :
  sep ∉ chars a ->
  split sep (a +:+ String sep b) = (if isEmpty a then [] else [a]) ++ split sep b.
Proof.
  intros Hsep. unfold split. rewrite split_keep_field by done.
  cbn [List.filter]. by destruct (isEmpty a).
Qed.

Lemma split_last sep a :
  sep ∉ chars a -> split sep a = if isEmpty a then [] else [a].
Proof.
  intros Hsep. unfold split. rewrite split_keep_last by done.
  cbn [List.filter]. by destruct (isEmpty a).
Qed.

Lemma append_assoc a b c : (a +:+ b) +:+ c = a +:+ (b +:+ c).
Proof.
  induction a as [|x a IH]; [done|].
  change (String x ((a +:+ b) +:+ c) = String x (a +:+ (b +:+ c))). by rewrite IH.
Qed.

(** *** Place markers *)

Lemma chars_inj a b : chars a = chars b -> a = b.
Proof. intros H. by rewrite <- (of_chars_chars a), H, of_chars_chars. Qed.

Lemma tokens_plain l : forall fuel r,
  "%"%char ∉ l -> tokens (length l + fuel) (l ++ r) = (Char <$> l) ++ tokens fuel r.
Proof.
  induction l as [|c l IH]; intros fuel r Hl; [done|].
  cbn [length Nat.add app tokens].
  destruct (Ascii.eqb_spec c "%") as [->|_]; [exfalso; apply Hl; left|].
  cbn [negb fmap list_fmap app]. rewrite IH; [done|].
  intros Hin. apply Hl. by right.
Qed.

Lemma lowest_marker_plain l ts : lowest_marker ((Char <$> l) ++ ts) = lowest_marker ts.
Proof. induction l as [|c l IH]; [done|]. exact IH. Qed.

Lemma fill_plain k a l ts :
  flat_map (fill k a) ((Char <$> l) ++ ts) = l ++ flat_map (fill k a) ts.
Proof. induction l as [|c l IH]; [done|]. cbn [fmap list_fmap app flat_map fill]. by rewrite IH. Qed.

(** Text without a per cent sign in front of a pattern stays in front of
    what [arg] makes of the pattern. *)
Lemma arg_plain pre s a : "%"%char ∉ chars pre -> arg (pre +:+ s) a = pre +:+ arg s a.
Proof.
  intros Hpre. unfold arg.
  rewrite length_append, chars_append, <- length_chars, <- Nat.add_succ_r.
  rewrite tokens_plain by done. rewrite lowest_marker_plain.
  destruct (lowest_marker _) as [k|]; [|done].
  by rewrite fill_plain, of_chars_app, of_chars_chars.
Qed.

(** [arg] on a pattern that is known: the tokens are computed, and the text
    is put together again. *)
Ltac arg_text :=
  unfold arg;
  match goal with
  | |- context [tokens ?n (chars ?s)] =>
      let ts := eval vm_compute in (tokens n (chars s)) in
      change (tokens n (chars s)) with ts
  end;
  cbn [lowest_marker fold_right Z.min Z.compare Pos.compare Pos.compare_cont
       flat_map fill Z.eqb Pos.eqb app];
  apply chars_inj; rewrite chars_of_chars;
  repeat (rewrite ?chars_append, ?QtFacts.chars_String);
  rewrite <- ?app_assoc, ?app_nil_r;
  reflexivity.

(** Two texts with the same characters. *)
Ltac text_eq :=
  apply chars_inj;
  repeat (rewrite ?chars_of_chars, ?chars_append, ?QtFacts.chars_String);
  rewrite <- ?app_assoc, ?app_nil_r;
  reflexivity.




Lemma arg_key a : arg "key_%1" a = "key_" +:+ a.
Proof. arg_text. Qed.

Lemma number_plain z c :
  c ∈ chars (number z) ->
  c <> "%"%char /\ c <> ","%char /\ c <> "010"%char /\ isSpace c = false.
Proof.
  destruct (number_chars z) as (digits & -> & _ & Hdigits & _). intros Hc.
  apply elem_of_app in Hc as [Hc|Hc].
  - destruct (z <? 0); [|by apply elem_of_nil in Hc].
    apply list_elem_of_singleton in Hc as ->. done.
  - rewrite Forall_forall in Hdigits.
    apply Hdigits, is_digit_plain in Hc as (Hspace & _ & _ & Hcomma & Hnl & Hpc). done.
Qed.

Lemma number_not_empty z : isEmpty (number z) = false.
Proof.
  destruct (number_chars z) as (digits & Hchars & Hne & _).
  destruct (number z); [|done]. destruct (z <? 0); [done|]. by destruct digits.
Qed.

End TextFacts.

Module MarkerFacts.
Import Qt Host Wire.
Import ExchangeFacts TextFacts.

Lemma one_or_two_digits_rest d l n more l4 :
  one_or_two_digits d l = (n, more, l4) -> (length l4 <= length l)%nat.
Proof.
  unfold one_or_two_digits. destruct l as [|c l]; [by intros [= <- <- <-]|].
  destruct (digitValue c); intros [= <- <- <-]; cbn [length]; lia.
Qed.

(** The tokens do not depend on the fuel, once there is enough of it. *)
Lemma tokens_enough fuel : forall fuel' l,
  (length l <= fuel)%nat -> (length l <= fuel')%nat -> tokens fuel l = tokens fuel' l.
Proof.
  induction fuel as [|fuel IH]; intros fuel' l Hl Hl'.
  { destruct l; [|cbn in Hl; lia]. by destruct fuel'. }
  destruct fuel' as [|fuel']; [destruct l; [done | cbn in Hl'; lia]|].
  destruct l as [|c l1]; [done|]. cbn [tokens]. cbn [length] in Hl, Hl'.
  destruct (negb (Ascii.eqb c "%")); [f_equal; apply IH; lia|].
  match goal with
  | |- (let '(loc, l2) := ?x in _) = _ =>
      assert (Hx : (length x.2 <= length l1)%nat);
      [|destruct x as [loc l2]; cbn [snd] in Hx]
  end.
  { destruct l1 as [|c1 l1']; [done|]. destruct (Ascii.eqb c1 "L"); cbn [snd length]; lia. }
  destruct l2 as [|c2 l3]; [done|]. cbn [length] in Hx.
  destruct (digitValue c2) as [d|]; [|f_equal; apply IH; cbn [length]; lia].
  destruct (one_or_two_digits d l3) as [[n more] l4] eqn:Hd.
  apply one_or_two_digits_rest in Hd. f_equal. apply IH; lia.
Qed.


Lemma arg_tokens_of s a :
  arg s a = match lowest_marker (tokens_of s) with
            | Some k => of_chars (flat_map (fill k (chars a)) (tokens_of s))
            | None => s
            end.
Proof. reflexivity. Qed.

Lemma tokens_of_plain pre s :
  "%"%char ∉ chars pre -> tokens_of (pre +:+ s) = (Char <$> chars pre) ++ tokens_of s.
Proof.
  intros Hpre. unfold tokens_of.
  rewrite length_append, chars_append, <- length_chars, <- Nat.add_succ_r.
  by rewrite tokens_plain.
Qed.

Lemma tokens_of_all_plain s : "%"%char ∉ chars s -> tokens_of s = Char <$> chars s.
Proof.
  intros Hs. rewrite <- (append_empty_r s) at 1. rewrite tokens_of_plain by done.
  apply app_nil_r.
Qed.

Lemma lowest_marker_all_plain l : lowest_marker (Char <$> l) = None.
Proof. rewrite <- (app_nil_r (Char <$> l)). apply lowest_marker_plain. Qed.

Lemma digit_not_L d n : digitValue d = Some n -> Ascii.eqb d "L" = false.
Proof. intros Hd. destruct (Ascii.eqb_spec d "L") as [->|]; [discriminate Hd | done]. Qed.

Lemma tokens_step fuel c l1 :
  tokens (S fuel) (c :: l1)
  = if negb (Ascii.eqb c "%") then Char c :: tokens fuel l1
    else
      let '(loc, l2) :=
        match l1 with
        | c1 :: l1' => if Ascii.eqb c1 "L" then ([c1], l1') else ([], l1)
        | [] => ([], l1)
        end in
      match l2 with
      | [] => Char <$> (c :: loc)
      | c2 :: l3 =>
          match digitValue c2 with
          | None => (Char <$> (c :: loc)) ++ tokens fuel l2
          | Some d =>
              let '(n, more, l4) := one_or_two_digits d l3 in
              Marker n (c :: loc ++ c2 :: more) :: tokens fuel l4
          end
      end.
Proof. reflexivity. Qed.

(** A marker of one digit in front of a character that is no digit. *)
Lemma tokens_of_marker d n c s :
  digitValue d = Some n -> digitValue c = None ->
  tokens_of (String "%" (String d (String c s)))
  = Marker n ["%"%char; d] :: tokens_of (String c s).
Proof.
  intros Hd Hc. unfold tokens_of. rewrite !QtFacts.chars_String.
  cbn [String.length]. rewrite tokens_step, Ascii.eqb_refl. cbn [negb].
  rewrite (digit_not_L d n Hd), Hd. unfold one_or_two_digits. rewrite Hc.
  cbn [app]. f_equal. apply tokens_enough; cbn [length]; rewrite length_chars; lia.
Qed.

Lemma lowest_marker_cons t ts :
  lowest_marker (t :: ts)
  = match t, lowest_marker ts with
    | Marker n _, Some k => Some (Z.min n k)
    | Marker n _, None => Some n
    | Char _, m => m
    end.
Proof. reflexivity. Qed.

Section Mode.
Variables (pre mid s a : string).
Hypothesis Hpre : "%"%char ∉ chars pre.
Hypothesis Hmid : "%"%char ∉ chars mid.

Lemma tokens_of_mode rest :
  tokens_of (String "%" (String "5" (String Host.newline (mid +:+ rest))))
  = Marker 5 ["%"%char; "5"%char] :: (Char <$> Host.newline :: chars mid) ++ tokens_of rest.
Proof.
  rewrite (tokens_of_marker "5" 5) by reflexivity. f_equal.
  change (String Host.newline (mid +:+ rest)) with (String Host.newline mid +:+ rest).
  rewrite tokens_of_plain; [done|].
  rewrite QtFacts.chars_String, elem_of_cons. by intros [?|?].
Qed.

(** While the pattern behind holds a marker below 5, [%5] stays. *)
Lemma arg_before_mode k :
  lowest_marker (tokens_of s) = Some k -> k < 5 ->
  arg (pre +:+ String "%" (String "5" (String Host.newline (mid +:+ s)))) a
  = pre +:+ String "%" (String "5" (String Host.newline (mid +:+ arg s a))).
Proof.
  intros Hk Hlt. rewrite arg_plain by done. f_equal.
  rewrite arg_tokens_of, tokens_of_mode, lowest_marker_cons, lowest_marker_plain, Hk.
  rewrite Z.min_r by lia. cbn [flat_map fill].
  destruct (Z.eqb_spec 5 k) as [?|_]; [lia|].
  rewrite fill_plain, (arg_tokens_of s), Hk. text_eq.
Qed.

(** Once the pattern behind holds no marker, [%5] is replaced. *)
Lemma arg_mode :
  "%"%char ∉ chars s ->
  arg (pre +:+ String "%" (String "5" (String Host.newline (mid +:+ s)))) a
  = pre +:+ a +:+ String Host.newline (mid +:+ s).
Proof.
  intros Hs. rewrite arg_plain by done. f_equal.
  rewrite arg_tokens_of, tokens_of_mode, lowest_marker_cons, lowest_marker_plain.
  rewrite tokens_of_all_plain, lowest_marker_all_plain by done. cbn [flat_map fill Z.eqb Pos.eqb].
  rewrite fill_plain. rewrite <- (app_nil_r (Char <$> chars s)), fill_plain.
  cbn [flat_map]. text_eq.
Qed.

End Mode.

Lemma arg_behind pre pat a k :
  "%"%char ∉ chars pre ->
  lowest_marker (tokens_of pat) = Some k ->
  lowest_marker (tokens_of (pre +:+ pat)) = Some k /\ arg (pre +:+ pat) a = pre +:+ arg pat a.
Proof.
  intros Hpre Hk. split; [|by apply arg_plain].
  by rewrite tokens_of_plain, lowest_marker_plain.
Qed.

Lemma percent_free_cons c s :
  c <> "%"%char -> "%"%char ∉ chars s -> "%"%char ∉ chars (String c s).
Proof. intros Hc Hs. rewrite QtFacts.chars_String, elem_of_cons. by intros [?|?]. Qed.

Lemma percent_free_app a b :
  "%"%char ∉ chars a -> "%"%char ∉ chars b -> "%"%char ∉ chars (a +:+ b).
Proof. intros Ha Hb. rewrite chars_append, elem_of_app. by intros [?|?]. Qed.

Lemma arg_c2 a : arg ",%2,%3,%4" a = ("," +:+ a) +:+ ",%3,%4".
Proof. arg_text. Qed.

Lemma arg_c3 a : arg ",%3,%4" a = ("," +:+ a) +:+ ",%4".
Proof. arg_text. Qed.

Lemma arg_c4 a : arg ",%4" a = "," +:+ a.
Proof. arg_text. Qed.

(** The four values of the rectangle and the mode end up where the pattern
    of line 162 has their markers, the mode in front although it is given
    last. *)
Lemma arg_croprect X Y W H M :
  "%"%char ∉ chars X -> "%"%char ∉ chars Y -> "%"%char ∉ chars W -> "%"%char ∉ chars H ->
  arg (arg (arg (arg (arg
    ("command=gmic_qt_get_cropped_images" +:+ Host.nl +:+ "mode=%5" +:+ Host.nl
     +:+ "croprect=%1,%2,%3,%4") X) Y) W) H) M
  = "command=gmic_qt_get_cropped_images" +:+ Host.nl +:+ "mode=" +:+ M +:+ Host.nl
    +:+ "croprect=" +:+ X +:+ "," +:+ Y +:+ "," +:+ W +:+ "," +:+ H.
Proof.
  intros HX HY HW HH.
  set (pre := "command=gmic_qt_get_cropped_images" +:+ Host.nl +:+ "mode=").
  set (mid := "croprect=" +:+ X).
  assert (Hpre : "%"%char ∉ chars pre) by (by apply free_of_spec).
  assert (Hmid : "%"%char ∉ chars mid)
    by (apply percent_free_app; [by apply free_of_spec | done]).
  assert (H1 : arg ("command=gmic_qt_get_cropped_images" +:+ Host.nl +:+ "mode=%5" +:+ Host.nl
                    +:+ "croprect=%1,%2,%3,%4") X
               = pre +:+ String "%" (String "5" (String Host.newline (mid +:+ ",%2,%3,%4")))).
  { subst pre mid. arg_text. }
  rewrite H1.
  rewrite (arg_before_mode pre mid ",%2,%3,%4" Y Hpre Hmid 2) by (reflexivity || lia).
  rewrite arg_c2.
  set (p2 := "," +:+ Y).
  assert (Hp2 : "%"%char ∉ chars p2) by (by apply percent_free_cons).
  destruct (arg_behind p2 ",%3,%4" W 3 Hp2 eq_refl) as [Hk3 Ha3].
  rewrite (arg_before_mode pre mid _ W Hpre Hmid 3 Hk3) by lia.
  rewrite Ha3, arg_c3, <- (append_assoc p2).
  set (p3 := p2 +:+ ("," +:+ W)).
  assert (Hp3 : "%"%char ∉ chars p3)
    by (apply percent_free_app; [done | by apply percent_free_cons]).
  destruct (arg_behind p3 ",%4" H 4 Hp3 eq_refl) as [Hk4 Ha4].
  rewrite (arg_before_mode pre mid _ H Hpre Hmid 4 Hk4) by lia.
  rewrite Ha4, arg_c4.
  rewrite arg_mode; [|done|done|].
  - subst pre mid p3 p2. text_eq.
  - apply percent_free_app; [done | by apply percent_free_cons].
Qed.

End MarkerFacts.

(** ** The messages and the responses as text *)

Module WireFacts.
Import Qt Host Wire.
Import ExchangeFacts TextFacts MarkerFacts CropFacts.

Lemma hex_pair_plain x :
  Forall (fun c => c <> ","%char /\ c <> newline /\ c <> "%"%char)
    (let n := Z.of_nat (nat_of_ascii x) in [hex_digit (Z.shiftr n 4); hex_digit (Z.land n 15)]).
Proof.
  destruct x as [[] [] [] [] [] [] [] []]; vm_compute;
    repeat constructor; discriminate.
Qed.

Lemma toHex_plain s c :
  c ∈ chars (toHex s) -> c <> ","%char /\ c <> newline /\ c <> "%"%char.
Proof.
  unfold toHex. rewrite chars_of_chars. intros Hin.
  apply list_elem_of_In, in_flat_map in Hin as (x & _ & Hin).
  pose proof (hex_pair_plain x) as Hpair. rewrite Forall_forall in Hpair.
  by apply Hpair, list_elem_of_In.
Qed.

Lemma toHex_empty s : isEmpty (toHex s) = isEmpty s.
Proof. by destruct s. Qed.

Lemma comma_append s : "," +:+ s = String "," s.
Proof. reflexivity. Qed.

Lemma number_free z c : c = ","%char \/ c = newline \/ c = "%"%char -> c ∉ chars (number z).
Proof.
  intros Hc Hin. apply number_plain in Hin as (? & ? & ? & _).
  destruct Hc as [-> | [-> | ->]]; done.
Qed.

Lemma toHex_free s c : c = ","%char \/ c = newline \/ c = "%"%char -> c ∉ chars (toHex s).
Proof.
  intros Hc Hin. apply toHex_plain in Hin as (? & ? & ?).
  destruct Hc as [-> | [-> | ->]]; done.
Qed.

(** The fields of a line: the key and the name are dropped when they are
    empty. *)
Lemma crop_line_parts k n w h :
  ","%char ∉ chars k ->
  layer_parts (crop_line k n w h)
  = (if isEmpty k then [] else [k]) ++ (if isEmpty n then [] else [toHex n])
    ++ [number w; number h].
Proof.
  intros Hk. unfold layer_parts, crop_line. rewrite !comma_append.
  rewrite split_field by done.
  rewrite split_field by (apply toHex_free; by left).
  rewrite split_field by (apply number_free; by left).
  rewrite split_last by (apply number_free; by left).
  by rewrite toHex_empty, !number_not_empty.
Qed.

Lemma crop_line_newline k n w h :
  newline ∉ chars k -> newline ∉ chars (crop_line k n w h).
Proof.
  intros Hk. unfold crop_line. rewrite !comma_append.
  repeat (rewrite ?chars_append, ?QtFacts.chars_String).
  repeat (rewrite ?elem_of_app, ?elem_of_cons).
  intros [? | [? | [Hin | [? | [Hin | [? | Hin]]]]]]; try done.
  - by apply toHex_free in Hin; [|right; left].
  - by apply number_free in Hin; [|right; left].
  - by apply number_free in Hin; [|right; left].
Qed.

Lemma crop_line_not_empty k n w h : isEmpty (crop_line k n w h) = false.
Proof.
  unfold crop_line. destruct k; [|done]. rewrite comma_append. done.
Qed.

(** The lines of a text put together from lines that are not empty and hold
    no line break. *)
Lemma crop_lines_concat ls :
  Forall (fun l => (newline ∉ chars l) /\ isEmpty l = false) ls ->
  crop_lines (String.concat nl ls) = ls.
Proof.
  unfold crop_lines. induction ls as [|x ls IH]; intros Hls; [done|].
  apply Forall_cons in Hls as [[Hx Hne] Hls]. destruct ls as [|y ls].
  - cbn [String.concat]. by rewrite split_last, Hne.
  - change (String.concat nl (x :: y :: ls))
      with (x +:+ String newline (String.concat nl (y :: ls))).
    rewrite split_field, Hne by done. by rewrite IH.
Qed.



Lemma lines_of_layers layers :
  Forall (fun l => newline ∉ chars (layer_segment l)) layers ->
  crop_lines (String.concat nl (line_of <$> layers)) = line_of <$> layers.
Proof.
  intros Hall. apply crop_lines_concat. rewrite Forall_fmap.
  eapply Forall_impl; [exact Hall|]. intros l Hl. cbn.
  split; [by apply crop_line_newline | apply crop_line_not_empty].
Qed.

Lemma concat_not_empty ls :
  ls <> [] -> Forall (fun l => isEmpty l = false) ls -> String.concat nl ls <> "".
Proof.
  intros Hne Hall. destruct ls as [|x ls]; [done|].
  apply Forall_cons in Hall as [Hx _]. destruct x; [done|]. by destruct ls.
Qed.





Lemma split_blank sep s : Forall (fun c => c = sep) (chars s) -> split sep s = [].
Proof.
  unfold split. induction s as [|c s IH]; intros Hall; [done|].
  rewrite QtFacts.chars_String in Hall. apply Forall_cons in Hall as [-> Hall].
  cbn [split_keep]. rewrite Ascii.eqb_refl. cbn [List.filter isEmpty negb]. by apply IH.
Qed.

(** X10: a response that holds line breaks only has no line: the call
    returns with both lists emptied and tells the host to detach.  The empty
    response is another matter: the call returns with both lists as they
    were passed, having sent its request only. *)
Theorem getCroppedImages_blank_response
    (E : Krita) (images : list gmic_image) (imageNames : list string)
    (x y width height : PrimFloat.float) (mode : Z) (p : Process) :
  let answer := crop_answer E x y width height mode p in
  let request := croprect_message E (croprect x y width height) mode in
  (answer <> EmptyString ->
   Forall (fun c => c = newline) (chars answer) ->
   getCroppedImages E images imageNames x y width height mode p
   = Returns ([], []) (after_send (after_send p request) "command=gmic_qt_detach"))
  /\ (answer = EmptyString ->
      exists p',
        getCroppedImages E images imageNames x y width height mode p
        = Returns (images, imageNames) p'
        /\ sent p' = sent p ++ [request]).
Proof.
  intros answer request. subst answer request.
  split; unfold getCroppedImages, toUtf8, fromUtf8, bind at 1;
    cbn [sendMessageSynchronously]; fold (crop_answer E x y width height mode p).
  - intros Hne Hblank. rewrite (isEmpty_false _ Hne).
    by rewrite (split_blank _ _ Hblank).
  - intros ->. eexists. split; reflexivity.
Qed.

Lemma getCroppedImages_blank_response_witness :
  let E := Examples.krita (nl +:+ nl) [] 0 in
  let E0 := Examples.krita "" [] 0 in
  getCroppedImages E [Examples.pixel 1 1] ["old"] Examples.minus_one Examples.minus_one
      Examples.minus_one Examples.minus_one 1 started
  = Returns ([], [])
      (after_send
         (after_send started (croprect_message E (croprect Examples.minus_one Examples.minus_one
      Examples.minus_one Examples.minus_one) 1))
         "command=gmic_qt_detach")
  /\ exists p',
       getCroppedImages E0 [Examples.pixel 1 1] ["old"] Examples.minus_one Examples.minus_one
      Examples.minus_one Examples.minus_one 1 started
       = Returns ([Examples.pixel 1 1], ["old"]) p'
       /\ sent p' = sent started ++ [croprect_message E0 (croprect Examples.minus_one Examples.minus_one
      Examples.minus_one Examples.minus_one) 1].
Proof.
  intros E E0. split.
  - apply (getCroppedImages_blank_response E [Examples.pixel 1 1] ["old"] Examples.minus_one Examples.minus_one
      Examples.minus_one Examples.minus_one 1 started).
    + vm_compute. discriminate.
    + vm_compute. repeat constructor.
  - apply (getCroppedImages_blank_response E0 [Examples.pixel 1 1] ["old"] Examples.minus_one Examples.minus_one
      Examples.minus_one Examples.minus_one 1 started).
    vm_compute. reflexivity.
Defined.

(** X12: a line written for a layer without a name has three fields, the
    empty one being skipped: the call stops at the read of the fourth. *)
Theorem getCroppedImages_unnamed_layer
    (E : Krita) (images : list gmic_image) (imageNames : list string)
    (x y width height : PrimFloat.float) (mode : Z) (p : Process) (layers : list layer) :
  crop_answer E x y width height mode p = String.concat nl (line_of <$> layers) ->
  Forall (fun l => free_of "," (layer_segment l) && free_of newline (layer_segment l) = true)
    layers ->
  Exists (fun l => layer_title l = EmptyString) layers ->
  exists p',
    getCroppedImages E images imageNames x y width height mode p
    = Faults IndexOutOfRange p'.
Proof.
  intros Hanswer Hkeys Hunnamed.
  assert (Hne : crop_answer E x y width height mode p <> EmptyString).
  { rewrite Hanswer. apply concat_not_empty.
    - destruct layers; [by apply Exists_nil in Hunnamed | done].
    - rewrite Forall_fmap. apply Forall_true. intros l. apply crop_line_not_empty. }
  unfold getCroppedImages, toUtf8, fromUtf8, bind at 1. cbn [sendMessageSynchronously].
  fold (crop_answer E x y width height mode p). rewrite (isEmpty_false _ Hne).
  fold (crop_lines (crop_answer E x y width height mode p)).
  unfold bind at 1.
  match goal with
  | |- context [parse_layers ?l ?i ?acc ?q] =>
      destruct (parse_layers_short l i acc q) as [p' ->]; [|by exists p']
  end.
  rewrite Hanswer, lines_of_layers.
  2:{ eapply Forall_impl; [exact Hkeys|]. intros l [_ Hl]%andb_true_iff.
      by apply free_of_spec. }
  rewrite Exists_fmap. rewrite Forall_forall in Hkeys.
  apply Exists_exists in Hunnamed as (l & Hin & Hl). apply Exists_exists. exists l.
  split; [done|]. cbn. unfold line_of.
  destruct (proj1 (andb_true_iff _ _) (Hkeys l Hin)) as [Hcomma _].
  rewrite crop_line_parts, Hl by (by apply free_of_spec).
  destruct (isEmpty (layer_segment l)); cbn; lia.
Qed.

Lemma getCroppedImages_unnamed_layer_witness :
  let layers :=
    [ {| layer_segment := "key1"; layer_title := ""; layer_width := 2; layer_height := 2 |} ] in
  let E := Examples.krita (String.concat nl (line_of <$> layers)) Examples.two_segments 0 in
  exists p',
    getCroppedImages E [] [] Examples.minus_one Examples.minus_one Examples.minus_one Examples.minus_one 1 started = Faults IndexOutOfRange p'.
Proof.
  intros layers E.
  apply (getCroppedImages_unnamed_layer E [] [] Examples.minus_one Examples.minus_one Examples.minus_one Examples.minus_one 1 started layers).
  - vm_compute. reflexivity.
  - repeat constructor.
  - left. reflexivity.
Defined.


(** X7: the width and the height the host writes as decimal numbers, with a
    comma in between, are the width and the height the call returns. *)
Theorem getLayersExtent_reads_back (E : Krita) (mode : Z) (p : Process) (w h : Z) :
  extent_answer E mode p = number w +:+ "," +:+ number h ->
  in_int w = true -> in_int h = true ->
  getLayersExtent E mode p = Returns (w, h) (after_send p (image_size_message mode)).
Proof.
  intros Hanswer Hw Hh. rewrite ExtentFacts.getLayersExtent_unfold. cbv zeta.
  rewrite Hanswer, comma_append.
  destruct (number w +:+ String "," (number h)) eqn:Htext.
  { pose proof (number_not_empty w) as Hne. by destruct (number w). }
  rewrite <- Htext.
  rewrite split_field by (apply number_free; by left).
  rewrite split_last by (apply number_free; by left).
  rewrite !number_not_empty. cbn [app].
  by rewrite !toInt_number.
Qed.

Lemma getLayersExtent_reads_back_witness :
  getLayersExtent (Examples.krita "640,480" [] 0) 1 started
  = Returns (640, 480) (after_send started (image_size_message 1)).
Proof.
  apply (getLayersExtent_reads_back (Examples.krita "640,480" [] 0) 1 started 640 480).
  - vm_compute. reflexivity.
  - reflexivity.
  - reflexivity.
Defined.


(** *** The messages *)

Lemma image_size_message_text mode :
  image_size_message mode = "command=gmic_qt_get_image_size" +:+ nl +:+ "mode=" +:+ number mode.
Proof. unfold image_size_message. arg_text. Qed.


Lemma segment_key_text E n : segment_key E n = "key_" +:+ createUuid E n.
Proof. apply arg_key. Qed.



(** X6: whatever the response, a call of [getLayersExtent] hands one message
    to [sendMessageSynchronously], which reads [command=...] and, on a second
    line, [mode=] followed by the mode in decimal.  It leaves the registry of
    the output segments, the deleted objects and the uuids as they were,
    keeps the warnings there were, and never reads a field that the response
    does not have. *)
Theorem getLayersExtent_footprint (E : Krita) (mode : Z) (p : Process) :
  let call := getLayersExtent E mode p in
  (forall f q, call <> Faults f q)
  /\ sharedMemorySegments (final call) = sharedMemorySegments p
  /\ deleted (final call) = deleted p
  /\ uuids (final call) = uuids p
  /\ warnings p `prefix_of` warnings (final call)
  /\ sent (final call)
     = sent p ++ ["command=gmic_qt_get_image_size" +:+ nl +:+ "mode=" +:+ number mode].
Proof.
  intros call. subst call.
  rewrite ExtentFacts.getLayersExtent_unfold, image_size_message_text. cbv zeta.
  destruct (extent_answer E mode p); [done|].
  destruct (split _ _) as [|? [|? [|? ?]]]; done.
Qed.

(** X8: the request of [getCroppedImages] reads, line by line: the command,
    [mode=] and the mode, [croprect=] and the four values of the rectangle
    with commas in between.  The mode is given last to [arg] and lands on
    the second line all the same.  The texts of the doubles hold no per cent
    sign. *)
Theorem getCroppedImages_request_text
    (E : Krita) (images : list gmic_image) (imageNames : list string)
    (x y width height : PrimFloat.float) (mode : Z) (p : Process) :
  (forall d, free_of "%" (number_double E d) = true) ->
  sent (final (getCroppedImages E images imageNames x y width height mode p))
    !! length (sent p)
  = Some ("command=gmic_qt_get_cropped_images" +:+ nl +:+ "mode=" +:+ number mode +:+ nl
          +:+ "croprect=" +:+ number_double E (rect_x (croprect x y width height))
          +:+ "," +:+ number_double E (rect_y (croprect x y width height))
          +:+ "," +:+ number_double E (rect_width (croprect x y width height))
          +:+ "," +:+ number_double E (rect_height (croprect x y width height))).
Proof.
  intros Hdouble. rewrite getCroppedImages_first_message. f_equal.
  unfold croprect_message. apply arg_croprect; by apply free_of_spec.
Qed.

Lemma getCroppedImages_request_text_witness :
  let E := Examples.krita "" [] 0 in
  sent (final (getCroppedImages E [] [] Examples.minus_one Examples.minus_one Examples.minus_one Examples.minus_one 1 started)) !! length (sent started)
  = Some ("command=gmic_qt_get_cropped_images" +:+ nl +:+ "mode=" +:+ number 1 +:+ nl
          +:+ "croprect=" +:+ number_double E (rect_x (croprect Examples.minus_one Examples.minus_one Examples.minus_one Examples.minus_one))
          +:+ "," +:+ number_double E (rect_y (croprect Examples.minus_one Examples.minus_one Examples.minus_one Examples.minus_one))
          +:+ "," +:+ number_double E (rect_width (croprect Examples.minus_one Examples.minus_one Examples.minus_one Examples.minus_one))
          +:+ "," +:+ number_double E (rect_height (croprect Examples.minus_one Examples.minus_one Examples.minus_one Examples.minus_one))).
Proof.
  intros E.
  apply (getCroppedImages_request_text E [] [] Examples.minus_one Examples.minus_one Examples.minus_one Examples.minus_one 1 started).
  intros d. cbn [number_double E Examples.krita].
  destruct (PrimFloat.eqb d PrimFloat.zero); [reflexivity|].
  destruct (PrimFloat.eqb d PrimFloat.one); reflexivity.
Defined.

(** C4: a rectangle whose four values are all below zero goes into the
    request as (0, 0, 1, 1), whatever the values; any other rectangle goes
    into the request as it is.  The request is the first message of the
    call.  Its text ends with the line [croprect=] followed by the four
    values of that rectangle, with commas in between, as soon as the texts of
    the doubles hold no per cent sign. *)
Theorem getCroppedImages_croprect
    (E : Krita) (images : list gmic_image) (imageNames : list string)
    (x y width height : PrimFloat.float) (mode : Z) (p : Process) :
  let first_message :=
    sent (final (getCroppedImages E images imageNames x y width height mode p))
      !! length (sent p) in
  let entire :=
    {| rect_x := PrimFloat.zero; rect_y := PrimFloat.zero;
       rect_width := PrimFloat.one; rect_height := PrimFloat.one |} in
  let given := {| rect_x := x; rect_y := y; rect_width := width; rect_height := height |} in
  (PrimFloat.ltb x PrimFloat.zero = true /\ PrimFloat.ltb y PrimFloat.zero = true
   /\ PrimFloat.ltb width PrimFloat.zero = true /\ PrimFloat.ltb height PrimFloat.zero = true ->
   first_message = Some (croprect_message E entire mode))
  /\ (~ (PrimFloat.ltb x PrimFloat.zero = true /\ PrimFloat.ltb y PrimFloat.zero = true
         /\ PrimFloat.ltb width PrimFloat.zero = true
         /\ PrimFloat.ltb height PrimFloat.zero = true) ->
      first_message = Some (croprect_message E given mode))
  /\ ((forall d, free_of "%" (number_double E d) = true) ->
      forall r,
        croprect_message E r mode
        = "command=gmic_qt_get_cropped_images" +:+ nl +:+ "mode=" +:+ number mode +:+ nl
          +:+ "croprect=" +:+ number_double E (rect_x r)
          +:+ "," +:+ number_double E (rect_y r)
          +:+ "," +:+ number_double E (rect_width r)
          +:+ "," +:+ number_double E (rect_height r)).
Proof.
  intros first_message entire given. subst first_message entire given.
  rewrite getCroppedImages_first_message. unfold croprect, entireImage.
  split; [|split].
  - intros (-> & -> & -> & ->). done.
  - intros Hnot. destruct (PrimFloat.ltb x _), (PrimFloat.ltb y _),
      (PrimFloat.ltb width _), (PrimFloat.ltb height _); try done.
    exfalso. by apply Hnot.
  - intros Hdouble r. unfold croprect_message.
    apply arg_croprect; by apply free_of_spec.
Qed.

Lemma getCroppedImages_croprect_witness :
  let E := Examples.krita "" [] 0 in
  let entire :=
    {| rect_x := PrimFloat.zero; rect_y := PrimFloat.zero;
       rect_width := PrimFloat.one; rect_height := PrimFloat.one |} in
  sent (final (getCroppedImages E [] [] Examples.minus_one Examples.minus_one
      Examples.minus_one Examples.minus_one 1 started)) !! length (sent started)
  = Some (croprect_message E entire 1)
  /\ croprect_message E entire 1
     = "command=gmic_qt_get_cropped_images" +:+ nl +:+ "mode=" +:+ number 1 +:+ nl
       +:+ "croprect=" +:+ "0" +:+ "," +:+ "0" +:+ "," +:+ "1" +:+ "," +:+ "1".
Proof.
  intros E entire.
  destruct (getCroppedImages_croprect E [] [] Examples.minus_one Examples.minus_one
      Examples.minus_one Examples.minus_one 1 started) as (Hentire & _ & Htext).
  split.
  - apply Hentire. by vm_compute.
  - apply (Htext ltac:(intros d; cbn [number_double E Examples.krita];
                       destruct (PrimFloat.eqb d PrimFloat.zero); [reflexivity|];
                       destruct (PrimFloat.eqb d PrimFloat.one); reflexivity) entire).
Defined.

End WireFacts.

(** ** What the entry points leave behind *)

Module SessionFacts.
Import Qt Host Wire Plugin.
Import ExchangeFacts TextFacts CropFacts OutputFacts WireFacts.

Lemma only_warns_bind {A B} (m : M A) (k : A -> M B) :
  only_warns m -> (forall a, only_warns (k a)) -> only_warns (bind m k).
Proof.
  intros Hm Hk p. rewrite final_bind. destruct (Hm p) as [t1 H1].
  destruct (m p) as [a p1|f p1]; cbn [final] in H1; subst p1; [|by exists t1].
  destruct (Hk a (log p t1)) as [t2 H2]. exists (t1 ++ t2). by rewrite H2, log_log.
Qed.

Lemma only_warns_ret {A} (a : A) : only_warns (ret a).
Proof. intros p. exists []. by rewrite log_nil. Qed.

Lemma only_warns_throw {A} f : only_warns (@throw A f).
Proof. intros p. exists []. by rewrite log_nil. Qed.

Lemma only_warns_qWarning text : only_warns (qWarning text).
Proof. intros p. by exists [text]. Qed.

Lemma only_warns_when b m : only_warns m -> only_warns (when b m).
Proof. destruct b; [done|]. intros _. apply only_warns_ret. Qed.

Lemma only_warns_at {A} (l : list A) i : only_warns (at_ l i).
Proof. unfold at_. destruct (l !! i); [apply only_warns_ret | apply only_warns_throw]. Qed.

Lemma only_warns_set_at {A} (l : list A) i a : only_warns (set_at l i a).
Proof. unfold set_at. case_match; [apply only_warns_ret | apply only_warns_throw]. Qed.

Lemma only_warns_image_of_segment w h segment : only_warns (image_of_segment w h segment).
Proof.
  unfold image_of_segment. destruct (assign w h 1 4); [|apply only_warns_throw].
  repeat case_match; (apply only_warns_ret || apply only_warns_throw).
Qed.

Ltac only_warns :=
  repeat first
    [ apply only_warns_ret | apply only_warns_throw | apply only_warns_qWarning
    | apply only_warns_at | apply only_warns_set_at | apply only_warns_image_of_segment
    | apply only_warns_when | apply only_warns_bind | intros ? ].

Lemma only_warns_parse_layers layers : forall i acc, only_warns (parse_layers layers i acc).
Proof.
  induction layers as [|layer layers IH]; intros i acc; cbn [parse_layers];
    [apply only_warns_ret|].
  only_warns. apply IH.
Qed.

Lemma only_warns_fill_images E keys :
  forall i sizes images, only_warns (fill_images E keys i sizes images).
Proof.
  induction keys as [|key keys IH]; intros i sizes images; cbn [fill_images];
    [apply only_warns_ret|].
  destruct (attach E key); only_warns; apply IH.
Qed.

(** The state a call of [getCroppedImages] ends in. *)
Lemma getCroppedImages_final
    (E : Krita) (images : list gmic_image) (imageNames : list string)
    (x y width height : PrimFloat.float) (mode : Z) (p : Process) :
  let asked := after_send p (croprect_message E (croprect x y width height) mode) in
  exists texts,
    match getCroppedImages E images imageNames x y width height mode p with
    | Returns _ p' =>
        p' = if isEmpty (crop_answer E x y width height mode p)
             then log asked texts
             else after_send (log asked texts) detach_message
    | Faults _ p' => p' = log asked texts
    end.
Proof.
  intros asked. unfold getCroppedImages, toUtf8, fromUtf8, bind at 1.
  cbn [sendMessageSynchronously]. fold (crop_answer E x y width height mode p).
  fold (after_send p (croprect_message E (croprect x y width height) mode)). fold asked.
  destruct (isEmpty (crop_answer E x y width height mode p)).
  { by exists ["	gmic-qt: empty answer!"]. }
  unfold bind at 1.
  match goal with
  | |- context [parse_layers ?l ?i ?acc asked] =>
      destruct (only_warns_parse_layers l i acc asked) as [t1 H1];
      destruct (parse_layers l i acc asked) as [got p1|f p1]
  end; cbn [final] in H1; subst p1; [|by exists t1].
  unfold bind at 1.
  match goal with
  | |- context [fill_images E ?ks ?i ?sz ?imgs ?q] =>
      destruct (only_warns_fill_images E ks i sz imgs q) as [t2 H2];
      destruct (fill_images E ks i sz imgs q) as [imgs' p2|f p2]
  end; cbn [final] in H2; subst p2; rewrite log_log; by exists (t1 ++ t2).
Qed.

(** X9: whatever the response, a call of [getCroppedImages] leaves the
    registry of the output segments, the deleted objects and the uuids as
    they were, and keeps the warnings there were.  It sends its request,
    and after it the detach message exactly when it returns on a response
    that is not empty: a call that stops at a fault never tells the host to
    detach. *)
Theorem getCroppedImages_footprint
    (E : Krita) (images : list gmic_image) (imageNames : list string)
    (x y width height : PrimFloat.float) (mode : Z) (p : Process) :
  let call := getCroppedImages E images imageNames x y width height mode p in
  let request := croprect_message E (croprect x y width height) mode in
  sharedMemorySegments (final call) = sharedMemorySegments p
  /\ deleted (final call) = deleted p
  /\ uuids (final call) = uuids p
  /\ warnings p `prefix_of` warnings (final call)
  /\ sent (final call)
     = sent p ++ request ::
         match call with
         | Returns _ _ =>
             if isEmpty (crop_answer E x y width height mode p) then [] else [detach_message]
         | Faults _ _ => []
         end.
Proof.
  intros call request. subst call request.
  destruct (getCroppedImages_final E images imageNames x y width height mode p)
    as [texts Hfinal]. cbv zeta in Hfinal.
  destruct (getCroppedImages _ _ _ _ _ _ _ _ _) as [r p'|f p']; cbn [final]; subst p'.
  - destruct (isEmpty _); cbn [log after_send sharedMemorySegments deleted uuids warnings sent];
      repeat split; try done; try (by apply prefix_app_r).
    by rewrite <- app_assoc.
  - cbn [log after_send sharedMemorySegments deleted uuids warnings sent].
    repeat split; try done. by apply prefix_app_r.
Qed.

(** *** The objects made for the segments *)

Lemma sound_started E : sound E started.
Proof. split; [reflexivity | constructor]. Qed.

Lemma sound_log E p texts : sound E p -> sound E (log p texts).
Proof. by intros [? ?]. Qed.

Lemma sound_after_send E p ba : sound E p -> sound E (after_send p ba).
Proof. by intros [? ?]. Qed.

Lemma key_detach E m : key (detach E m) = key m.
Proof. unfold detach. by destruct (isAttached m). Qed.

Lemma sound_released E p : sound E p -> sound E (released E p).
Proof.
  intros [Hacc Hdet]. split.
  - unfold accounted in *. cbn [released deleted sharedMemorySegments uuids].
    rewrite app_nil_r. rewrite <- Hacc, !fmap_app, <- list_fmap_compose. f_equal.
    apply list_fmap_ext. intros i m _. apply key_detach.
  - unfold detached in *. cbn [released deleted]. apply Forall_app. split; [done|].
    rewrite Forall_fmap. apply Forall_true. intros m. cbn. unfold detach.
    destruct (isAttached m) eqn:Hm; cbn [isAttached key]; [|by rewrite Hm].
    by intros ?%negb_true_iff.
Qed.

Lemma sound_pending E p : sound E p -> sound E (pending E p).
Proof.
  intros [Hacc Hdet]. split; [|done].
  unfold accounted in *. cbn [pending deleted sharedMemorySegments uuids].
  by rewrite seq_S, app_assoc, !fmap_app, <- fmap_app, Hacc.
Qed.

Lemma sound_stored E p gimg : sound E p -> sound E (stored E p gimg).
Proof.
  intros [Hacc Hdet]. split; [|done].
  unfold accounted in *. cbn [stored deleted sharedMemorySegments uuids].
  by rewrite seq_S, app_assoc, !fmap_app, <- fmap_app, Hacc.
Qed.

Lemma sound_output_layers E imageNames rest : forall i message p,
  sound E p -> sound E (final (output_layers E rest i imageNames message p)).
Proof.
  induction rest as [|gimg rest IH]; intros i message p Hp; [done|].
  rewrite output_layers_cons.
  destruct (creates E (uuids p) gimg); [|by apply sound_log, sound_pending].
  destruct (copy_fits gimg); [|by apply sound_pending].
  destruct (imageNames !! i); [|by apply sound_stored].
  by apply IH, sound_stored.
Qed.

Lemma sound_getLayersExtent E mode p :
  sound E p -> sound E (final (getLayersExtent E mode p)).
Proof.
  intros Hp. rewrite ExtentFacts.getLayersExtent_unfold. cbv zeta.
  destruct (extent_answer E mode p); [by apply sound_after_send|].
  destruct (split _ _) as [|? [|? [|? ?]]]; by apply sound_after_send.
Qed.

Lemma sound_getCroppedImages E images imageNames x y width height mode p :
  sound E p -> sound E (final (getCroppedImages E images imageNames x y width height mode p)).
Proof.
  intros Hp.
  destruct (getCroppedImages_final E images imageNames x y width height mode p)
    as [texts Hfoot]. cbv zeta in Hfoot.
  destruct (getCroppedImages _ _ _ _ _ _ _ _ _) as [r p'|f p']; cbn [final]; subst p'.
  - destruct (isEmpty _); [|apply sound_after_send]; by apply sound_log, sound_after_send.
  - by apply sound_log, sound_after_send.
Qed.

Lemma sound_outputImages E images imageNames mode p :
  sound E p -> sound E (final (outputImages E images imageNames mode p)).
Proof.
  intros Hp. rewrite outputImages_unfold.
  pose proof (sound_output_layers E imageNames images 0 (output_message mode)
                (released E p) (sound_released E p Hp)) as Hloop.
  destruct (output_layers _ _ _ _ _ _) as [[message|] p'|f p']; cbn [final] in *;
    [by apply sound_after_send | done | done].
Qed.

Lemma sound_run E e : forall p, sound E p -> sound E (final (run E e p)).
Proof.
  induction e as [r|mode next IH|images imageNames x y width height mode next IH
                  |images imageNames mode next IH]; intros p Hp; [done|..];
    cbn [run]; rewrite final_bind.
  - pose proof (sound_getLayersExtent E mode p Hp) as H1.
    destruct (getLayersExtent E mode p); [by apply IH | done].
  - pose proof (sound_getCroppedImages E images imageNames x y width height mode p Hp) as H2.
    destruct (getCroppedImages _ _ _ _ _ _ _ _ _); [by apply IH | done].
  - pose proof (sound_outputImages E images imageNames mode p Hp) as H3.
    destruct (outputImages _ _ _ _ _); [by apply IH | done].
Qed.

(** X17: whatever calls the engine makes, and wherever it stops, a fault
    included, the books of the segment objects are kept: the objects made
    from the uuids drawn so far are, in this order, the deleted ones followed
    by those of the registry, and none was deleted while attached unless its
    [detach] failed. *)
Theorem run_keeps_the_books (E : Krita) (e : engine) :
  let p' := final (run E e started) in
  key <$> (deleted p' ++ sharedMemorySegments p') = segment_key E <$> seq 0 (uuids p')
  /\ Forall (fun m => isAttached m = true -> detach_ok E (key m) = false) (deleted p').
Proof. apply (sound_run E e started), sound_started. Qed.

(** X18: when [main] returns, the registry is empty and every object made for
    a segment during the run has been deleted, after a [detach] when it was
    attached. *)
Theorem main_deletes_every_segment
    (E : Krita) (args : list string) (engine_of : bool -> engine) (r : Z) (p' : Process) :
  main E args engine_of started = Returns r p' ->
  sharedMemorySegments p' = []
  /\ key <$> deleted p' = segment_key E <$> seq 0 (uuids p')
  /\ Forall (fun m => isAttached m = true -> detach_ok E (key m) = false) (deleted p').
Proof.
  intros Hmain. unfold main in Hmain.
  return_step Hmain as ? q0 H0. injection H0 as _ <-.
  return_step Hmain as r' q1 H1.
  return_step Hmain as ? q2 H2. injection Hmain as -> <-.
  unfold release, set_registry in H2. injection H2 as _ <-.
  match type of H1 with
  | run E ?e ?q = _ =>
      pose proof (sound_run E e q (sound_log E started _ (sound_started E))) as Hrun;
      rewrite H1 in Hrun
  end.
  cbn [final] in Hrun. apply sound_released in Hrun as [Hacc Hdet].
  unfold accounted, detached, released in *.
  cbn [sharedMemorySegments deleted uuids] in *. rewrite app_nil_r in Hacc. done.
Qed.

Lemma main_deletes_every_segment_witness :
  let engine_of := fun _ : bool =>
    OutputImages [Examples.pixel 1 1] ["a"] 0
      (GetLayersExtent 1 (fun _ =>
         OutputImages [Examples.pixel 2 2; Examples.pixel 1 1] ["b"; "c"] 0 (Exit 0))) in
  let p' := final (main Examples.small_host ["krita-socket"] engine_of started) in
  sharedMemorySegments p' = []
  /\ key <$> deleted p' = segment_key Examples.small_host <$> seq 0 (uuids p')
  /\ Forall (fun m => isAttached m = true -> detach_ok Examples.small_host (key m) = false)
       (deleted p').
Proof.
  intros engine_of p'.
  apply (main_deletes_every_segment Examples.small_host ["krita-socket"] engine_of 0 p').
  vm_compute. reflexivity.
Defined.



(** *** The segments and the message of [outputImages] *)




Lemma well_sized_bytes gimg :
  well_sized gimg ->
  byte_count gimg = 4 * Z.of_nat (length (_data gimg))
  /\ create_argument gimg = 4 * Z.of_nat (length (_data gimg)).
Proof.
  intros (Hw & Hh & Hs & Hsize & Hdata). unfold create_argument, byte_count.
  assert (Hn : 0 <= _width gimg * _height gimg * _spectrum gimg) by nia.
  assert (Huint : uint (uint (_width gimg * _height gimg) * _spectrum gimg)
                  = _width gimg * _height gimg * _spectrum gimg).
  { unfold uint. rewrite Z.mul_mod_idemp_l by done. apply Z.mod_small. lia. }
  rewrite Huint, Hdata, Z.mod_small by lia.
  split; [lia|]. rewrite to_int_small by lia. lia.
Qed.

(** X14: for an image whose samples take less than 2^31 bytes, the segment is
    asked for with the size of the samples, the copy fits, and the segment
    holds all the samples of the image. *)
Theorem outputImages_exports_samples (E : Krita) (n : nat) (gimg : gmic_image) :
  well_sized gimg ->
  create_argument gimg = 4 * Z.of_nat (length (_data gimg))
  /\ copy_fits gimg = true
  /\ filled_segment E n gimg
     = {| key := segment_key E n; isAttached := true; memory := _data gimg |}.
Proof.
  intros Hsized. destruct (well_sized_bytes gimg Hsized) as [Hbytes Hcreate].
  split; [done|]. split.
  - unfold copy_fits. rewrite Hcreate, Hbytes.
    by rewrite Z.ltb_irrefl.
  - unfold filled_segment. rewrite Hbytes. f_equal.
    rewrite Z.mul_comm, Z.div_mul, Nat2Z.id by done. apply firstn_all.
Qed.

Lemma outputImages_exports_samples_witness :
  create_argument (Examples.pixel 2 2) = 4 * Z.of_nat (length (_data (Examples.pixel 2 2)))
  /\ copy_fits (Examples.pixel 2 2) = true
  /\ filled_segment Examples.small_host 0 (Examples.pixel 2 2)
     = {| key := segment_key Examples.small_host 0; isAttached := true;
          memory := _data (Examples.pixel 2 2) |}.
Proof.
  apply (outputImages_exports_samples Examples.small_host 0 (Examples.pixel 2 2)).
  repeat split; vm_compute; (reflexivity || discriminate).
Defined.


Lemma oversize_never_fits gimg : 2 ^ 31 <= byte_count gimg -> copy_fits gimg = false.
Proof.
  intros Hbig. unfold copy_fits, create_argument, Socket.to_int.
  pose proof (Z.mod_pos_bound (byte_count gimg) (2 ^ 32) eq_refl) as Hmod.
  destruct (Z.ltb_spec (byte_count gimg `mod` 2 ^ 32) (2 ^ 31)) as [Hlow|Hhigh].
  - destruct (Z.ltb_spec (byte_count gimg `mod` 2 ^ 32) (byte_count gimg)); [done|lia].
  - destruct (Z.ltb_spec (byte_count gimg `mod` 2 ^ 32 - 2 ^ 32) (byte_count gimg));
      [done|lia].
Qed.

(** The loop never gets past an image whose copy does not fit: it ends
    before, at a segment that is refused or at a copy that does not fit, or
    at that image. *)
Lemma output_layers_misfit E imageNames rest : forall k i message p gimg,
  rest !! k = Some gimg ->
  copy_fits gimg = false ->
  (forall j, (j < length rest)%nat -> is_Some (imageNames !! (i + j)%nat)) ->
  exists p',
    (output_layers E rest i imageNames message p = Returns None p'
     /\ warnings p' = warnings p ++ [no_segment]
     \/ output_layers E rest i imageNames message p = Faults BufferOverrun p')
    /\ sent p' = sent p.
Proof.
  induction rest as [|g0 rest IH]; intros k i message p gimg Hk Hfits Hnames; [done|].
  rewrite output_layers_cons.
  destruct (creates E (uuids p) g0); [|eexists; split; [by left | done]].
  destruct k as [|k].
  { injection Hk as ->. rewrite Hfits. eexists. split; [by right | done]. }
  destruct (copy_fits g0); [|eexists; split; [by right | done]].
  destruct (Hnames 0%nat ltac:(cbn [length]; lia)) as [layerName Hn].
  rewrite Nat.add_0_r in Hn. rewrite Hn.
  destruct (IH k (S i) (message +:+ layer_line (segment_key E (uuids p)) layerName g0)
              (stored E p g0) gimg Hk Hfits) as (p' & Hrun & Hsent).
  - intros j Hj. replace (S i + j)%nat with (i + S j)%nat by lia.
    apply Hnames. cbn [length]. lia.
  - by exists p'.
Qed.

(** X15: a batch that holds an image of 2^31 bytes or more, at whatever
    index, is never handed over.  The size of that image does not fit the
    [int] that [create] takes, so that its segment is refused or its copy
    runs past the end of the segment; the call ends there or at an earlier
    image, with a segment that is refused, which logs the warning and
    returns, or with a copy that does not fit.  No message is sent either
    way.  Every image has a name. *)
Theorem outputImages_two_gigabytes
    (E : Krita) (images : list gmic_image) (imageNames : list string)
    (mode : Z) (p : Process) (k : nat) (gimg : gmic_image) :
  images !! k = Some gimg ->
  2 ^ 31 <= byte_count gimg ->
  (length images <= length imageNames)%nat ->
  exists p',
    (outputImages E images imageNames mode p = Returns tt p'
     /\ warnings p' = warnings p ++ [no_segment]
     \/ outputImages E images imageNames mode p = Faults BufferOverrun p')
    /\ sent p' = sent p.
Proof.
  intros Hk Hbig Hnames. rewrite outputImages_unfold.
  destruct (output_layers_misfit E imageNames images k 0 (output_message mode)
              (released E p) gimg Hk (oversize_never_fits gimg Hbig))
    as (p' & [[-> Hwarn] | ->] & Hsent).
  - intros j Hj. apply lookup_lt_is_Some. cbn [Nat.add]. lia.
  - exists p'. split; [by left | done].
  - exists p'. split; [by right | done].
Qed.

Lemma outputImages_two_gigabytes_witness :
  let gimg := {| _width := 32768; _height := 16384; _depth := 1; _spectrum := 1;
                 _data := [] |} in
  let images := [Examples.pixel 1 1; gimg] in
  exists p',
    (outputImages Examples.small_host images ["a"; "b"] 0 started = Returns tt p'
     /\ warnings p' = warnings started ++ [no_segment]
     \/ outputImages Examples.small_host images ["a"; "b"] 0 started
        = Faults BufferOverrun p')
    /\ sent p' = sent started.
Proof.
  intros gimg images.
  apply (outputImages_two_gigabytes Examples.small_host images ["a"; "b"] 0 started
           1%nat gimg).
  - reflexivity.
  - vm_compute. discriminate.
  - subst images. cbn [length]. lia.
Defined.

End SessionFacts.
